(** * ssfunc.util: frame sampling ([lazylist]) and desync scanning ([desync])

    A shallow embedding of [src/ssfunc/util.py].  Python integers are [Z],
    Python floats are IEEE-754 binary64 values in their [spec_float] form,
    Python lists are [list]s, exceptions are the left summand of a result
    type.  The module-level generator of [random] is an explicit state that
    [lazylist] threads, and the frames a function asks the statistics clip
    for are logged next to it. *)

From Stdlib Require Import ZArith List Bool Lia Sorted Permutation.
From Stdlib Require Import Floats.SpecFloat.
From Stdlib Require Ascii String.
Import ListNotations.

Open Scope Z_scope.

(** ** Exceptions and results *)

Inductive exn : Type :=
| IndexError
| ZeroDivisionError
| OverflowError
| ValueError
| VSError.

Definition result (A : Type) : Type := (exn + A)%type.

Definition ok {A} (a : A) : result A := inr a.
Definition raise {A} (e : exn) : result A := inl e.

Definition rbind {A B} (r : result A) (k : A -> result B) : result B :=
  match r with
  | inl e => inl e
  | inr a => k a
  end.

(** ** Python floats *)

Module PyFloat.

Definition float : Type := spec_float.

Definition prec : Z := 53.
Definition emax : Z := 1024.

(** [a <= b] and [a < b] on floats; both are [False] when a NaN is
    involved. *)
Definition le (a b : float) : bool := SFleb a b.
Definition lt (a b : float) : bool := SFltb a b.

(** The float a decimal literal [n / 10^digits] denotes: the binary64 value
    nearest to it. *)
Definition decimal (n : positive) (digits : positive) : float :=
  SFdiv prec emax (S754_finite false n 0)
                  (S754_finite false (Pos.pow 10 digits) 0).

(** [float(z)] as the arithmetic operators convert an int operand. *)
Definition of_int (z : Z) : result float :=
  match binary_normalize prec emax z 0 false with
  | S754_infinity _ => raise OverflowError
  | f => ok f
  end.

(** [a / b] on two ints: the correctly rounded quotient. *)
Definition int_truediv (a b : Z) : result float :=
  if b =? 0 then raise ZeroDivisionError
  else if a =? 0 then ok (S754_zero (b <? 0))
  else
    match SFdiv prec emax (binary_normalize prec emax a 0 false)
                          (binary_normalize prec emax b 0 false) with
    | S754_infinity _ => raise OverflowError
    | f => ok f
    end.

(** [x * z] for a float [x] and an int [z]. *)
Definition mul_int (x : float) (z : Z) : result float :=
  rbind (of_int z) (fun y => ok (SFmul prec emax x y)).

(** [round(x)] with one argument: nearest integer, ties to even. *)
Definition round (x : float) : result Z :=
  match x with
  | S754_zero _ => ok 0
  | S754_infinity _ => raise OverflowError
  | S754_nan => raise ValueError
  | S754_finite s m (Zneg p) =>
      let d := Z.pow_pos 2 p in
      let q := Z.pos m / d in
      let r := Z.pos m mod d in
      let n := match 2 * r ?= d with
               | Lt => q
               | Gt => q + 1
               | Eq => if Z.even q then q else q + 1
               end in
      ok (if s then - n else n)
  | S754_finite s m e =>
      let n := Z.pos m * 2 ^ e in
      ok (if s then - n else n)
  end.

End PyFloat.


(** ** The [random] module

    [random.seed(a)] with an int [a] sets the generator to a state that
    depends on [a] alone.  [random.sample(population, k)] raises
    [ValueError] unless [0 <= k <= len(population)], and otherwise returns
    the elements at [k] pairwise different positions of the population. *)

Class PyRandom : Type := {
  rng_state : Type;
  random_seed : Z -> rng_state;
  random_sample : list Z -> Z -> rng_state -> result (list Z) * rng_state;
  random_sample_draws :
    forall pop k g,
      0 <= k <= Z.of_nat (length pop) ->
      exists js : list nat,
        fst (random_sample pop k g) = ok (map (fun j => nth j pop 0) js)
        /\ length js = Z.to_nat k
        /\ NoDup js
        /\ Forall (fun j => (j < length pop)%nat) js;
  random_sample_rejects :
    forall pop k g,
      ~ (0 <= k <= Z.of_nat (length pop)) ->
      random_sample pop k g = (raise ValueError, g)
}.

(** ** Effects

    A computation starts from a generator state and ends with a result, the
    generator state it leaves behind, and the trace of what it did: the
    frames it requested from a statistics clip and the lines it printed. *)

Inductive message : Type :=
| Checking (i n : Z)
| DesyncDetected (i : Z).

Inductive event : Type :=
| GetFrame (n : Z)
| Print (m : message).

Definition M (S A : Type) : Type := S -> result A * S * list event.

Definition ret {S A} (a : A) : M S A := fun g => (ok a, g, []).

Definition bind {S A B} (m : M S A) (k : A -> M S B) : M S B :=
  fun g =>
    match m g with
    | (inl e, g1, t1) => (inl e, g1, t1)
    | (inr a, g1, t1) =>
        match k a g1 with
        | (r, g2, t2) => (r, g2, t1 ++ t2)
        end
    end.

Definition lift {S A} (r : result A) : M S A := fun g => (r, g, []).

Definition emit {S} (e : event) : M S unit := fun g => (ok tt, g, [e]).

Declare Scope py_scope.
Delimit Scope py_scope with py.
Notation "x <- m ;; k" := (bind m (fun x => k))
  (at level 61, m at next level, right associativity) : py_scope.
Notation "m ;; k" := (bind m (fun _ => k))
  (at level 61, right associativity) : py_scope.
Open Scope py_scope.

Definition value {S A} (o : result A * S * list event) : result A := fst (fst o).
Definition generator {S A} (o : result A * S * list event) : S := snd (fst o).
Definition trace {S A} (o : result A * S * list event) : list event := snd o.

(** The frames a trace requested, and the desync reports it printed. *)
Definition requested (t : list event) : list Z :=
  flat_map (fun e => match e with GetFrame n => [n] | _ => [] end) t.

Definition reported (t : list event) : list Z :=
  flat_map (fun e => match e with Print (DesyncDetected i) => [i] | _ => [] end) t.

(** ** Lists and loops *)

(** [l[i]] *)
Definition getitem {A} (l : list A) (i : Z) : result A :=
  let n := Z.of_nat (length l) in
  let j := if i <? 0 then i + n else i in
  if (j <? 0) || (n <=? j) then raise IndexError
  else match nth_error l (Z.to_nat j) with
       | Some a => ok a
       | None => raise IndexError
       end.

(** [range(a, b)] *)
Definition range (a b : Z) : list Z :=
  map (fun d => a + Z.of_nat d) (seq 0 (Z.to_nat (b - a))).

(** [l.sort()] on ints *)
Fixpoint insert (x : Z) (l : list Z) : list Z :=
  match l with
  | [] => [x]
  | y :: l' => if x <=? y then x :: l else y :: insert x l'
  end.

Fixpoint sort (l : list Z) : list Z :=
  match l with
  | [] => []
  | x :: l' => insert x (sort l')
  end.

(** [for i in idxs: body(i)], where the body answers [true] to [break]. *)
Fixpoint for_break {S} (idxs : list Z) (body : Z -> M S bool) : M S unit :=
  match idxs with
  | [] => ret tt
  | i :: rest =>
      stop <- body i ;;
      if stop : bool then ret tt else for_break rest body
  end.

(** ** Clips

    A clip carries its frame rate and, once [PlaneStats] ran over it, one
    statistic per frame ([PlaneStatsAverage] for one clip,
    [PlaneStatsDiff] for a pair of clips). *)

Record VideoNode : Type := {
  fps_num : Z;
  fps_den : Z;
  plane_stats : list PyFloat.float
}.

Definition num_frames (clip : VideoNode) : Z :=
  Z.of_nat (length (plane_stats clip)).

(** [clip.get_frame(n).props[...]]: the request is traced, and fails outside
    [0 <= n < num_frames]. *)
Definition get_frame_prop {S} (clip : VideoNode) (n : Z) : M S PyFloat.float :=
  emit (GetFrame n) ;;
  if (n <? 0) || (num_frames clip <=? n) then lift (raise VSError)
  else match nth_error (plane_stats clip) (Z.to_nat n) with
       | Some v => ret v
       | None => lift (raise VSError)
       end.

(** ** [lazylist] *)

Module Thresholds.
Definition dark_lo : PyFloat.float := Eval vm_compute in PyFloat.decimal 62746 6.
Definition dark_hi : PyFloat.float := Eval vm_compute in PyFloat.decimal 380000 6.
Definition light_lo : PyFloat.float := Eval vm_compute in PyFloat.decimal 450000 6.
Definition light_hi : PyFloat.float := Eval vm_compute in PyFloat.decimal 800000 6.
Definition desync_thr : PyFloat.float := Eval vm_compute in PyFloat.decimal 150000 6.
End Thresholds.

(** [0.062746 <= avg <= 0.380000] and [0.450000 <= avg <= 0.800000] *)
Definition is_dark (avg : PyFloat.float) : bool :=
  PyFloat.le Thresholds.dark_lo avg && PyFloat.le avg Thresholds.dark_hi.

Definition is_light (avg : PyFloat.float) : bool :=
  PyFloat.le Thresholds.light_lo avg && PyFloat.le avg Thresholds.light_hi.

(** The two lists [dark] and [light] that [checkclip] appends to. *)
Definition buckets : Type := (list Z * list Z)%type.

Definition checkclip (n : Z) (avg : PyFloat.float) (b : buckets) : buckets :=
  let '(dark, light) := b in
  if is_dark avg then (dark ++ [n], light)
  else if is_light avg then (dark, light ++ [n])
  else (dark, light).

(** Rendering [eval_frames] evaluates [checkclip] on every frame, with the
    frame's properties taken from the statistics clip.  [render] does so in
    the order it is given, [clip_async_render] in index order; [lazylist]
    sorts the two lists afterwards. *)
Fixpoint render {S} (s_clip : VideoNode) (frames : list Z) (b : buckets)
  : M S buckets :=
  match frames with
  | [] => ret b
  | n :: rest =>
      avg <- get_frame_prop s_clip n ;;
      render s_clip rest (checkclip n avg b)
  end.

Definition clip_async_render {S} (s_clip : VideoNode) : M S buckets :=
  render s_clip (range 0 (num_frames s_clip)) ([], []).

(** [thr = round(clip.fps_num / clip.fps_den * diff_thr)] *)
Definition threshold (clip : VideoNode) (diff_thr : Z) : result Z :=
  rbind (PyFloat.int_truediv (fps_num clip) (fps_den clip)) (fun fps =>
  rbind (PyFloat.mul_int fps diff_thr) PyFloat.round).

(** The inner loop [for y in checklist], on the pair of the deduplicated
    list and the last value kept. *)
Fixpoint scan_checklist (thr x : Z) (checklist : list Z) (st : list Z * Z)
  : list Z * Z :=
  match checklist with
  | [] => st
  | y :: rest =>
      if (x >=? y + thr) && (x >=? snd st + thr)
      then (fst st ++ [x], x)
      else scan_checklist thr x rest st
  end.

(** The outer loop [for i in range(1, len(bucket))], with
    [checklist = bucket[0:i]] and [x = bucket[i]]. *)
Definition dedupe_loop (thr : Z) (bucket : list Z) (st : list Z * Z)
  : list Z * Z :=
  fold_left
    (fun st i => scan_checklist thr (nth i bucket 0) (firstn i bucket) st)
    (seq 1 (length bucket - 1))
    st.

(** What [lazylist] computes for one bucket between sorting and sampling:
    [dedupe = [bucket[0]]], [lastval = bucket[0]], then the loops. *)
Definition dedupe (thr : Z) (bucket : list Z) : result (list Z) :=
  rbind (getitem bucket 0) (fun first =>
  ok (fst (dedupe_loop thr bucket ([first], first)))).

Module Defaults.
Definition dark_frames : Z := 8.
Definition light_frames : Z := 4.
Definition seed : Z := 20202020.
Definition diff_thr : Z := 15.
End Defaults.

Section Lazylist.

Context {R : PyRandom}.

Definition seed_generator (a : Z) : M rng_state unit :=
  fun _ => (ok tt, random_seed a, []).

Definition sample (population : list Z) (k : Z) : M rng_state (list Z) :=
  fun g => (random_sample population k g, []).

(** [if len(dedupe) > frames: random.seed(seed);
     dedupe = random.sample(dedupe, frames)] *)
Definition sample_bucket (seed : Z) (deduped : list Z) (frames : Z)
  : M rng_state (list Z) :=
  if Z.of_nat (length deduped) >? frames then
    seed_generator seed ;;
    sample deduped frames
  else ret deduped.

Definition lazylist (clip : VideoNode)
  (dark_frames light_frames seed diff_thr : Z) : M rng_state (list Z) :=
  b <- clip_async_render clip ;;
  let dark := sort (fst b) in
  let light := sort (snd b) in
  dark_first <- lift (getitem dark 0) ;;
  let dark_dedupe := [dark_first] in
  light_first <- lift (getitem light 0) ;;
  let light_dedupe := [light_first] in
  thr <- lift (threshold clip diff_thr) ;;
  lastvald <- lift (getitem dark 0) ;;
  lastvall <- lift (getitem light 0) ;;
  let dark_dedupe := fst (dedupe_loop thr dark (dark_dedupe, lastvald)) in
  let light_dedupe := fst (dedupe_loop thr light (light_dedupe, lastvall)) in
  dark_dedupe <- sample_bucket seed dark_dedupe dark_frames ;;
  light_dedupe <- sample_bucket seed light_dedupe light_frames ;;
  ret (dark_dedupe ++ light_dedupe).

(** Lines 87 to 95 on their own: both buckets sampled, then joined. *)
Definition sampling (seed : Z) (dark_dedupe : list Z) (dark_frames : Z)
  (light_dedupe : list Z) (light_frames : Z) : M rng_state (list Z) :=
  dark_dedupe <- sample_bucket seed dark_dedupe dark_frames ;;
  light_dedupe <- sample_bucket seed light_dedupe light_frames ;;
  ret (dark_dedupe ++ light_dedupe).

(** What a bucket's sampling step yields, as a function of the seed, the
    deduplicated list and the target count. *)
Definition drawn (seed : Z) (deduped : list Z) (frames : Z)
  : result (list Z) :=
  if Z.of_nat (length deduped) >? frames
  then fst (random_sample deduped frames (random_seed seed))
  else ok deduped.

End Lazylist.

(** ** [desync] *)

(** [stats] is [PlaneStats(clipa, clipb)]: frame [i] carries
    [PlaneStatsDiff].  One turn of the loop: *)
Definition desync_step {S} (stats : VideoNode) (i : Z) : M S bool :=
  emit (Print (Checking i (num_frames stats))) ;;
  diff <- get_frame_prop stats i ;;
  if PyFloat.lt Thresholds.desync_thr diff then
    emit (Print (DesyncDetected i)) ;;
    ret true
  else ret false.

Definition desync {S} (stats : VideoNode) (start : Z) : M S unit :=
  for_break (range start (num_frames stats)) (desync_step stats).

(** ** The greedy rule

    The rule the specification calls the simple one: keep the first index,
    then keep each later [x] iff [x >= last_kept + thr]. *)

Fixpoint greedy_from (thr last : Z) (rest : list Z) : list Z :=
  match rest with
  | [] => []
  | x :: rest' =>
      if x >=? last + thr then x :: greedy_from thr x rest'
      else greedy_from thr last rest'
  end.

Definition greedy_dedupe (thr : Z) (bucket : list Z) : list Z :=
  match bucket with
  | [] => []
  | first :: rest => first :: greedy_from thr first rest
  end.

(** [b] follows [a] at a distance of at least [thr]. *)
Definition gap (thr a b : Z) : Prop := a < b /\ b - a >= thr.

(** ** Statistics of a frame, as predicates *)

(** Frame [n] of the clip exists and carries the statistic [v]. *)
Definition stat_is (clip : VideoNode) (n : Z) (v : PyFloat.float) : Prop :=
  0 <= n /\ nth_error (plane_stats clip) (Z.to_nat n) = Some v.

(** [DiffValue > 0.150000] at frame [n]. *)
Definition exceeds (stats : VideoNode) (n : Z) : Prop :=
  exists d, stat_is stats n d /\ PyFloat.lt Thresholds.desync_thr d = true.

(** Index [i] is the first one from [a] on whose statistic exceeds the
    threshold. *)
Definition first_exceeding (stats : VideoNode) (a i : Z) : Prop :=
  a <= i < num_frames stats
  /\ exceeds stats i
  /\ forall j, a <= j < i -> ~ exceeds stats j.

(** The statistic of frame [n], and the classification it leads to. *)
Definition luma (clip : VideoNode) (n : Z) : PyFloat.float :=
  nth (Z.to_nat n) (plane_stats clip) S754_nan.

Definition lands_in_dark (clip : VideoNode) (n : Z) : bool :=
  is_dark (luma clip n).

Definition lands_in_light (clip : VideoNode) (n : Z) : bool :=
  negb (is_dark (luma clip n)) && is_light (luma clip n).

Definition classified (clip : VideoNode) : buckets :=
  (filter (lands_in_dark clip) (range 0 (num_frames clip)),
   filter (lands_in_light clip) (range 0 (num_frames clip))).

(** ** A generator to run the definitions with

    The state is a counter; a sample takes the population from the position
    the counter points at, wrapping around, and advances the counter. *)

Definition rotating_positions (n : nat) (k : Z) (g : Z) : list nat :=
  let r := if (n =? 0)%nat then 0%nat else Z.to_nat (g mod Z.of_nat n) in
  firstn (Z.to_nat k) (seq r (n - r) ++ seq 0 r).

Definition rotating_sample (pop : list Z) (k : Z) (g : Z)
  : result (list Z) * Z :=
  if (0 <=? k) && (k <=? Z.of_nat (length pop))
  then (ok (map (fun j => nth j pop 0) (rotating_positions (length pop) k g)),
        g + 1)
  else (raise ValueError, g).

#[export] Instance RotatingRandom : PyRandom.
Proof.
  refine {| rng_state := Z;
            random_seed := fun a => a;
            random_sample := rotating_sample |}.
  - intros pop k g Hk. exists (rotating_positions (length pop) k g).
    unfold rotating_sample.
    replace ((0 <=? k) && (k <=? Z.of_nat (length pop))) with true
      by (symmetry; apply andb_true_iff; split; apply Z.leb_le; lia).
    unfold rotating_positions.
    set (n := length pop).
    set (r := if (n =? 0)%nat then 0%nat else Z.to_nat (g mod Z.of_nat n)).
    assert (Hr : (r <= n)%nat).
    { subst r. destruct (Nat.eqb_spec n 0) as [E | E]; [lia|].
      assert (0 <= g mod Z.of_nat n < Z.of_nat n)
        by (apply Z.mod_pos_bound; lia).
      lia. }
    assert (Hnd : NoDup (seq r (n - r) ++ seq 0 r)).
    { apply NoDup_app; try apply seq_NoDup.
      intros j H1 H2. apply in_seq in H1. apply in_seq in H2. lia. }
    simpl. repeat split.
    + rewrite length_firstn, length_app, !length_seq. lia.
    + rewrite <- (firstn_skipn (Z.to_nat k)) in Hnd.
      apply NoDup_app_remove_r in Hnd. exact Hnd.
    + apply Forall_forall. intros j Hj.
      assert (Hin : In j (seq r (n - r) ++ seq 0 r)).
      { rewrite <- (firstn_skipn (Z.to_nat k)). apply in_or_app. now left. }
      apply in_app_or in Hin. destruct Hin as [Hin | Hin];
        apply in_seq in Hin; lia.
  - intros pop k g Hk. unfold rotating_sample.
    destruct ((0 <=? k) && (k <=? Z.of_nat (length pop))) eqn:E; [|reflexivity].
    apply andb_true_iff in E. destruct E as [E1 E2].
    apply Z.leb_le in E1. apply Z.leb_le in E2. lia.
Defined.

(** ** Example clips *)

(** Lumas [0.2, 0.2, 0.5, 0.5, 0.2] at one frame per second. *)
Definition five_frames : VideoNode :=
  {| fps_num := 1; fps_den := 1;
     plane_stats := [PyFloat.decimal 2 1; PyFloat.decimal 2 1;
                     PyFloat.decimal 5 1; PyFloat.decimal 5 1;
                     PyFloat.decimal 2 1] |}.

(** A single frame of luma [0.2]: nothing lands in the light list. *)
Definition one_dark_frame : VideoNode :=
  {| fps_num := 24; fps_den := 1; plane_stats := [PyFloat.decimal 2 1] |}.

(** Differences [0.01, 0.02, 0.20, 0.03]. *)
Definition four_diffs : VideoNode :=
  {| fps_num := 1; fps_den := 1;
     plane_stats := [PyFloat.decimal 1 2; PyFloat.decimal 2 2;
                     PyFloat.decimal 20 2; PyFloat.decimal 3 2] |}.

(** ** [betterround], [peak] and [scale] *)

(** [x / z] for a float [x] and an int [z]: the int is converted, and a zero
    divisor raises. *)
Definition float_div_int (x : PyFloat.float) (z : Z) : result PyFloat.float :=
  rbind (PyFloat.of_int z) (fun y =>
    match y with
    | S754_zero _ => raise ZeroDivisionError
    | _ => ok (SFdiv PyFloat.prec PyFloat.emax x y)
    end).

(** [base * round(input / base)] *)
Definition betterround (input : PyFloat.float) (base : Z) : result Z :=
  rbind (float_div_int input base) (fun q =>
  rbind (PyFloat.round q) (fun n =>
  ok (base * n))).

(** [(1 << bits_per_sample) - 1], for the [bits_per_sample] of the clip's
    format; a negative shift count raises. *)
Definition peak (bits_per_sample : Z) : result Z :=
  if bits_per_sample <? 0 then raise ValueError
  else ok (Z.shiftl 1 bits_per_sample - 1).

(** [betterround(value * peak / 255)] *)
Definition scale (value : PyFloat.float) (peak : Z) : result Z :=
  rbind (PyFloat.mul_int value peak) (fun x =>
  rbind (float_div_int x 255) (fun y =>
  betterround y 1)).

(** [scale] of the 8-bit value [v] at a bit depth, with [v] given as a
    float. *)
Definition scale_8bit (bits v : Z) : result Z :=
  rbind (peak bits) (fun p =>
  rbind (PyFloat.of_int v) (fun x =>
  scale x p)).

(** The integer [r] is the one nearest to [v * p / 255]. *)
Definition nearest_to_scaled (v p r : Z) : bool :=
  2 * Z.abs (255 * r - v * p) <? 255.

Definition scale_8bit_checked (bits v : Z) : bool :=
  match peak bits, scale_8bit bits v with
  | inr p, inr r => nearest_to_scaled v p r
  | _, _ => false
  end.

(** ** [get_episode_number]

    A string is the list of its code points.  The pattern
    [(\b|E|_)([0-9]{1,3})(\b|_|v)] is matched as [re.search] matches it:
    start positions from the left, alternatives in the order written, the
    digits greedily with backtracking. *)

Module Episode.

Definition str : Type := list N.

Inductive error : Type :=
| TypeError
| AttributeError
| ValueError
| EpisodeNotFound.

(** [[0-9]] *)
Definition is_digit (c : N) : bool := ((48 <=? c) && (c <=? 57))%N.

Definition is_ascii_letter (c : N) : bool :=
  (((65 <=? c) && (c <=? 90)) || ((97 <=? c) && (c <=? 122)))%N.

Section Patterns.

(** [str.isalnum] on the code points beyond ASCII. *)
Variable isalnum_beyond_ascii : N -> bool.

(** [\w]: alphanumeric or the underscore. *)
Definition is_word (c : N) : bool :=
  is_digit c || is_ascii_letter c || (c =? 95)%N
  || ((128 <=? c)%N && isalnum_beyond_ascii c).

Definition is_word_opt (c : option N) : bool :=
  match c with
  | Some c => is_word c
  | None => false
  end.

(** [\b] between the character before the position, if any, and the text
    from the position on. *)
Definition boundary (prev : option N) (rest : str) : bool :=
  xorb (is_word_opt prev) (is_word_opt (hd_error rest)).

(** The first alternative that matches. *)
Definition orelse {A} (a b : option A) : option A :=
  match a with
  | Some x => Some x
  | None => b
  end.

(** The text [c] when the string starts with the character [c]. *)
Definition literal (c : N) (rest : str) : option str :=
  match rest with
  | c' :: _ => if (c' =? c)%N then Some [c'] else None
  | [] => None
  end.

(** [(\b|_|v)] after the digit [prev]. *)
Definition closing (prev : N) (rest : str) : option str :=
  orelse (if boundary (Some prev) rest then Some [] else None)
 (orelse (literal 95 rest)
         (literal 118 rest)).

(** The leading digits of the text, at most [n]. *)
Fixpoint leading_digits (n : nat) (rest : str) : str :=
  match n, rest with
  | S n', c :: rest' =>
      if is_digit c then c :: leading_digits n' rest' else []
  | _, _ => []
  end.

(** [[0-9]{1,3}] then [(\b|_|v)]: [k] digits, then fewer. *)
Fixpoint digits_then_closing (k : nat) (rest : str) : option str :=
  match k with
  | O => None
  | S k' =>
      orelse
        (option_map (app (firstn k rest))
                    (closing (nth k' rest 0%N) (skipn k rest)))
        (digits_then_closing k' rest)
  end.

Definition digits_and_closing (rest : str) : option str :=
  digits_then_closing (length (leading_digits 3 rest)) rest.

(** The whole pattern at one position. *)
Definition match_here (prev : option N) (rest : str) : option str :=
  orelse (if boundary prev rest then digits_and_closing rest else None)
 (orelse (match literal 69 rest with
          | Some e => option_map (app e) (digits_and_closing (skipn 1 rest))
          | None => None
          end)
         (match literal 95 rest with
          | Some u => option_map (app u) (digits_and_closing (skipn 1 rest))
          | None => None
          end)).

(** [re.search(r"(\b|E|_)([0-9]{1,3})(\b|_|v)", s)], as [group(0)]. *)
Fixpoint search_from (prev : option N) (rest : str) : option str :=
  orelse (match_here prev rest)
         (match rest with
          | [] => None
          | c :: rest' => search_from (Some c) rest'
          end).

Definition search_episode (s : str) : option str := search_from None s.

(** [re.search(r"([0-9]{1,3})", s)], as [group(0)]. *)
Fixpoint search_digits (s : str) : option str :=
  match s with
  | [] => None
  | c :: s' => if is_digit c then Some (leading_digits 3 s) else search_digits s'
  end.

(** [s.zfill(width)] *)
Definition zfill (s : str) (width : Z) : str :=
  let fill := repeat 48%N (Z.to_nat (width - Z.of_nat (length s))) in
  match s with
  | c :: s' =>
      if ((c =? 43) || (c =? 45))%N then c :: fill ++ s' else fill ++ s
  | [] => fill
  end.

(** [int(s)] for a string of decimal digits. *)
Definition digits_value (s : str) : Z :=
  fold_left (fun acc c => 10 * acc + (Z.of_N c - 48)) s 0.

Definition int_of (s : str) : option Z :=
  match s with
  | [] => None
  | _ :: _ => if forallb is_digit s then Some (digits_value s) else None
  end.

Definition get_episode_number (infile : option str) (zfill_width : Z)
  (final : option Z) : error + str :=
  match infile with
  | None => inl TypeError
  | Some infile =>
      match search_episode infile with
      | None => inl AttributeError
      | Some partial =>
          match search_digits partial with
          | None => inl AttributeError
          | Some episode =>
              match final with
              | Some final =>
                  match int_of episode with
                  | None => inl ValueError
                  | Some episode_int =>
                      if episode_int <=? final
                      then inr (zfill episode zfill_width)
                      else inl EpisodeNotFound
                  end
              | None => inr (zfill episode zfill_width)
              end
          end
      end
  end.

End Patterns.

(** The last character of the text, or [prev] for an empty text. *)
Fixpoint last_of (prev : option N) (s : str) : option N :=
  match s with
  | [] => prev
  | c :: s' => last_of (Some c) s'
  end.

(** The matched text [m] found in [rest]: an opening [g] (nothing, [E] or
    [_]), the digits [d], a closing [c] (nothing, [_] or [v]), with no digit
    right after the digits. *)
Definition matched_as (rest m g d c tail : str) : Prop :=
  m = g ++ d ++ c
  /\ rest = g ++ d ++ c ++ tail
  /\ (g = [] \/ g = [69%N] \/ g = [95%N])
  /\ (c = [] \/ c = [95%N] \/ c = [118%N])
  /\ forallb is_digit d = true
  /\ (1 <= length d <= 3)%nat
  /\ (forall q, hd_error (c ++ tail) = Some q -> is_digit q = false).

(** The code points of a string literal, and the ASCII reading of [\w]. *)
Definition codes (s : String.string) : str :=
  map Ascii.N_of_ascii (String.list_ascii_of_string s).

Definition ascii_only (c : N) : bool := false.

End Episode.

Module EpisodeExamples.
Import String.

Definition release : Episode.str := Episode.codes "Show - 05 [1080p].mkv".
Definition release_before : Episode.str := Episode.codes "Show - ".
Definition release_digits : Episode.str := Episode.codes "05".
Definition release_after : Episode.str := Episode.codes " [1080p].mkv".

End EpisodeExamples.

(* ================================================================== *)
(** * Properties *)

(** ** Lists *)

Lemma getitem_0_nil {A} : getitem (@nil A) 0 = raise IndexError.
Proof. reflexivity. Qed.

Lemma getitem_0_cons {A} (a : A) l : getitem (a :: l) 0 = ok a.
Proof.
  unfold getitem. cbn [length]. rewrite Nat2Z.inj_succ.
  replace (0 <? 0) with false by reflexivity.
  replace (Z.succ (Z.of_nat (length l)) <=? 0) with false
    by (symmetry; apply Z.leb_gt; lia).
  reflexivity.
Qed.

Lemma range_nil a b : b <= a -> range a b = [].
Proof.
  intros H. unfold range. replace (Z.to_nat (b - a)) with 0%nat by lia.
  reflexivity.
Qed.

Lemma range_cons a b : a < b -> range a b = a :: range (a + 1) b.
Proof.
  intros H. unfold range.
  replace (Z.to_nat (b - a)) with (S (Z.to_nat (b - (a + 1)))) by lia.
  cbn [seq map]. f_equal; [lia|].
  rewrite <- seq_shift, map_map. apply map_ext. intros d. lia.
Qed.

Lemma range_snoc a b : a <= b -> range a (b + 1) = range a b ++ [b].
Proof.
  intros H. unfold range.
  replace (Z.to_nat (b + 1 - a)) with (Z.to_nat (b - a) + 1)%nat by lia.
  rewrite seq_app, map_app. cbn [seq map]. do 2 f_equal. lia.
Qed.

Lemma in_range a b x : In x (range a b) <-> a <= x < b.
Proof.
  unfold range. rewrite in_map_iff. split.
  - intros [d [<- Hd]]. apply in_seq in Hd. lia.
  - intros Hx. exists (Z.to_nat (x - a)). split; [lia|].
    apply in_seq. lia.
Qed.

(** ** The deduplication loops *)

(** The inner loop appends [x] exactly when some [y] of the checklist and
    the last kept value are both at least [thr] below [x]. *)
Lemma scan_checklist_decides thr x checklist st :
  scan_checklist thr x checklist st =
  if existsb (fun y => x >=? y + thr) checklist && (x >=? snd st + thr)
  then (fst st ++ [x], x)
  else st.
Proof.
  induction checklist as [|y rest IH]; cbn [scan_checklist existsb].
  - reflexivity.
  - rewrite IH.
    destruct (x >=? y + thr), (x >=? snd st + thr),
             (existsb (fun y0 => x >=? y0 + thr) rest); reflexivity.
Qed.

(** When the last kept value is one of the values already examined, the
    second condition alone decides. *)
Lemma scan_checklist_last_seen thr x checklist acc last :
  In last checklist ->
  scan_checklist thr x checklist (acc, last) =
  if x >=? last + thr then (acc ++ [x], x) else (acc, last).
Proof.
  intros Hin. rewrite scan_checklist_decides. cbn [fst snd].
  destruct (x >=? last + thr) eqn:E.
  - replace (existsb (fun y => x >=? y + thr) checklist) with true; [reflexivity|].
    symmetry. apply existsb_exists. exists last. split; assumption.
  - rewrite andb_false_r. reflexivity.
Qed.

(** The outer loop walks the bucket from its second element on, with the
    elements before the current one as checklist. *)
Lemma dedupe_loop_walk thr seen rest st :
  fold_left
    (fun st i =>
       scan_checklist thr (nth i (seen ++ rest) 0) (firstn i (seen ++ rest)) st)
    (seq (length seen) (length rest)) st =
  fst (fold_left
         (fun '(st, seen) x => (scan_checklist thr x seen st, seen ++ [x]))
         rest (st, seen)).
Proof.
  revert seen st. induction rest as [|x rest IH]; intros seen st.
  - reflexivity.
  - cbn [length seq fold_left].
    rewrite app_nth2, Nat.sub_diag by lia. cbn [nth].
    rewrite firstn_app, firstn_all, Nat.sub_diag. cbn [firstn].
    rewrite app_nil_r.
    replace (seen ++ x :: rest) with ((seen ++ [x]) ++ rest)
      by (rewrite <- app_assoc; reflexivity).
    replace (S (length seen)) with (length (seen ++ [x]))
      by (rewrite length_app; cbn; lia).
    apply IH.
Qed.

Lemma dedupe_walk_greedy thr rest : forall seen acc last,
  In last seen ->
  fst (fst (fold_left
         (fun '(st, seen) x => (scan_checklist thr x seen st, seen ++ [x]))
         rest ((acc, last), seen))) =
  acc ++ greedy_from thr last rest.
Proof.
  induction rest as [|x rest IH]; intros seen acc last Hin.
  - cbn. rewrite app_nil_r. reflexivity.
  - cbn [fold_left greedy_from].
    rewrite (scan_checklist_last_seen thr x seen acc last Hin).
    destruct (x >=? last + thr).
    + rewrite IH by (apply in_or_app; right; left; reflexivity).
      rewrite <- app_assoc. reflexivity.
    + apply IH. apply in_or_app. left. exact Hin.
Qed.

Lemma dedupe_loop_greedy thr first rest :
  fst (dedupe_loop thr (first :: rest) ([first], first)) =
  greedy_dedupe thr (first :: rest).
Proof.
  unfold dedupe_loop. cbn [length].
  replace (S (length rest) - 1)%nat with (length rest) by lia.
  change (first :: rest) with ([first] ++ rest).
  change 1%nat with (length [first]) at 1.
  rewrite dedupe_loop_walk.
  rewrite dedupe_walk_greedy by (left; reflexivity).
  reflexivity.
Qed.

Lemma dedupe_cons thr first rest :
  dedupe thr (first :: rest) = ok (greedy_dedupe thr (first :: rest)).
Proof.
  unfold dedupe. rewrite getitem_0_cons. cbn [rbind ok].
  rewrite dedupe_loop_greedy. reflexivity.
Qed.

Lemma greedy_from_incl thr rest : forall last x,
  In x (greedy_from thr last rest) -> In x rest.
Proof.
  induction rest as [|y rest IH]; intros last x Hx; cbn in *.
  - exact Hx.
  - destruct (y >=? last + thr).
    + destruct Hx as [-> | Hx]; [left; reflexivity | right; eauto].
    + right; eauto.
Qed.

Lemma greedy_dedupe_incl thr bucket x :
  In x (greedy_dedupe thr bucket) -> In x bucket.
Proof.
  destruct bucket as [|first rest]; cbn; [tauto|].
  intros [-> | Hx]; [left; reflexivity | right; eapply greedy_from_incl; eauto].
Qed.

(** ** Order of the deduplicated list *)

Lemma Sorted_weaken {A} (P Q : A -> A -> Prop) l :
  (forall a b, P a b -> Q a b) -> Sorted P l -> Sorted Q l.
Proof.
  intros HPQ HS. induction HS as [|a l HS IH Hd]; constructor.
  - exact IH.
  - destruct Hd; constructor. apply HPQ. assumption.
Qed.

Lemma Sorted_consecutive {A} (P : A -> A -> Prop) l :
  Sorted P l ->
  forall i a b,
    nth_error l i = Some a -> nth_error l (S i) = Some b -> P a b.
Proof.
  intros HS. induction HS as [|x l HS IH Hd]; intros i a b Ha Hb.
  - destruct i; discriminate.
  - destruct i as [|i].
    + cbn in Ha, Hb. injection Ha as <-.
      destruct Hd as [|y l' Hxy]; cbn in Hb; [discriminate|].
      injection Hb as <-. exact Hxy.
    + cbn in Ha. change (nth_error l (S i) = Some b) in Hb. eauto.
Qed.

Lemma greedy_from_gaps thr rest : forall last,
  Forall (Z.lt last) rest ->
  StronglySorted Z.lt rest ->
  HdRel (gap thr) last (greedy_from thr last rest)
  /\ Sorted (gap thr) (greedy_from thr last rest).
Proof.
  induction rest as [|x rest IH]; intros last Hlast Hsorted; cbn [greedy_from].
  - split; constructor.
  - apply StronglySorted_inv in Hsorted. destruct Hsorted as [Hrest Hx].
    apply Forall_cons_iff in Hlast. destruct Hlast as [Hlx Hlast].
    destruct (x >=? last + thr) eqn:E.
    + destruct (IH x Hx Hrest) as [Hd Hs].
      split; constructor; try assumption.
      split; [exact Hlx|]. apply Z.geb_le in E. lia.
    + apply IH; assumption.
Qed.

Lemma greedy_dedupe_gaps thr bucket :
  StronglySorted Z.lt bucket -> Sorted (gap thr) (greedy_dedupe thr bucket).
Proof.
  intros Hsorted. destruct bucket as [|first rest]; cbn [greedy_dedupe].
  - constructor.
  - apply StronglySorted_inv in Hsorted. destruct Hsorted as [Hrest Hfirst].
    destruct (greedy_from_gaps thr rest first Hfirst Hrest) as [Hd Hs].
    constructor; assumption.
Qed.

(** C1. For a strictly increasing bucket and any threshold [thr] (so also for
    [thr = round(fps_num / fps_den * diff_thr)]), the deduplicated list that
    [lazylist] builds exists as soon as the bucket is not empty, is in
    ascending order, and any two consecutive kept indices [a], [b] satisfy
    [a < b] and [b - a >= thr]. *)
Theorem dedupe_ascending_with_gaps (thr : Z) (bucket : list Z) :
  StronglySorted Z.lt bucket ->
  (bucket <> [] -> exists out, dedupe thr bucket = ok out)
  /\ forall out,
       dedupe thr bucket = ok out ->
       StronglySorted Z.lt out
       /\ forall i a b,
            nth_error out i = Some a ->
            nth_error out (S i) = Some b ->
            a < b /\ b - a >= thr.
Proof.
  intros Hsorted. split.
  - destruct bucket as [|first rest]; [congruence|].
    intros _. eexists. apply dedupe_cons.
  - intros out Hout.
    destruct bucket as [|first rest]; [discriminate|].
    rewrite dedupe_cons in Hout. injection Hout as <-.
    pose proof (greedy_dedupe_gaps thr _ Hsorted) as Hgaps.
    split.
    + apply Sorted_StronglySorted; [exact Z.lt_trans|].
      apply Sorted_weaken with (P := gap thr); [|exact Hgaps].
      intros a b [Hab _]. exact Hab.
    + intros i a b Ha Hb.
      exact (Sorted_consecutive _ _ Hgaps i a b Ha Hb).
Qed.

Lemma dedupe_ascending_with_gaps_example :
  StronglySorted Z.lt [0; 1; 2; 5; 6; 9]
  /\ dedupe 3 [0; 1; 2; 5; 6; 9] = ok [0; 5; 9]
  /\ StronglySorted Z.lt [0; 5; 9]
  /\ forall i a b,
       nth_error [0; 5; 9] i = Some a ->
       nth_error [0; 5; 9] (S i) = Some b ->
       a < b /\ b - a >= 3.
Proof.
  assert (Hs : StronglySorted Z.lt [0; 1; 2; 5; 6; 9]).
  { repeat (constructor; [|repeat constructor; lia]). constructor. }
  split; [exact Hs|].
  split; [reflexivity|].
  exact (proj2 (dedupe_ascending_with_gaps 3 [0; 1; 2; 5; 6; 9] Hs)
               [0; 5; 9] eq_refl).
Defined.

(** C2. The deduplication of the code, which scans the prefix of examined
    indices for a [y] with [x >= y + thr] and [x >= last_kept + thr], yields
    on every non-empty list and for every [thr] exactly the list of the
    greedy rule (keep the first index, then each [x] with
    [x >= last_kept + thr]); on the empty list it raises. *)
Theorem dedupe_refines_greedy (thr : Z) (bucket : list Z) :
  dedupe thr bucket =
  match bucket with
  | [] => raise IndexError
  | _ :: _ => ok (greedy_dedupe thr bucket)
  end.
Proof.
  destruct bucket as [|first rest].
  - reflexivity.
  - apply dedupe_cons.
Qed.

(** ** Float comparisons *)

Lemma SFcompare_antisym (a b : spec_float) :
  SFcompare b a = option_map CompOpp (SFcompare a b).
Proof.
  destruct a as [sa|sa| |sa ma ea], b as [sb|sb| |sb mb eb]; cbn;
    try reflexivity;
    try (destruct sa; reflexivity);
    try (destruct sb; reflexivity);
    try (destruct sa, sb; reflexivity).
  destruct sa, sb; cbn; try reflexivity;
    rewrite (Z.compare_antisym ea eb);
    destruct (ea ?= eb); cbn; try reflexivity;
    change (PosDef.Pos.compare_cont Eq mb ma) with (Pos.compare mb ma);
    change (PosDef.Pos.compare_cont Eq ma mb) with (Pos.compare ma mb);
    rewrite (Pos.compare_antisym ma mb); reflexivity.
Qed.

(** [d <= t] excludes [d > t], also for a NaN. *)
Lemma le_not_gt (d t : PyFloat.float) :
  PyFloat.le d t = true -> PyFloat.lt t d = false.
Proof.
  unfold PyFloat.le, PyFloat.lt, SFleb, SFltb.
  rewrite (SFcompare_antisym d t).
  destruct (SFcompare d t) as [[ | | ]|]; cbn; congruence.
Qed.

(** ** The desync scanner *)

Lemma get_frame_prop_run {S} (clip : VideoNode) (n : Z) (v : PyFloat.float)
      (g : S) :
  stat_is clip n v ->
  get_frame_prop clip n g = (ok v, g, [GetFrame n]).
Proof.
  intros [Hn Hv]. unfold get_frame_prop, bind, emit, ret, lift, num_frames.
  assert (Hlen : (Z.to_nat n < length (plane_stats clip))%nat)
    by (apply nth_error_Some; congruence).
  replace (n <? 0) with false by (symmetry; apply Z.ltb_ge; lia).
  replace (Z.of_nat (length (plane_stats clip)) <=? n) with false
    by (symmetry; apply Z.leb_gt; lia).
  cbn [orb]. rewrite Hv. reflexivity.
Qed.

Lemma stat_exists (clip : VideoNode) (n : Z) :
  0 <= n < num_frames clip -> exists v, stat_is clip n v.
Proof.
  unfold num_frames, stat_is. intros Hn.
  destruct (nth_error (plane_stats clip) (Z.to_nat n)) as [v|] eqn:E.
  - exists v. split; [lia | reflexivity].
  - apply nth_error_None in E. lia.
Qed.

Lemma stat_is_inj (clip : VideoNode) (n : Z) (v w : PyFloat.float) :
  stat_is clip n v -> stat_is clip n w -> v = w.
Proof. intros [_ Hv] [_ Hw]. congruence. Qed.

Lemma desync_step_run {S} (stats : VideoNode) (i : Z) (d : PyFloat.float)
      (g : S) :
  stat_is stats i d ->
  desync_step stats i g =
  if PyFloat.lt Thresholds.desync_thr d
  then (ok true, g, [Print (Checking i (num_frames stats)); GetFrame i;
                     Print (DesyncDetected i)])
  else (ok false, g, [Print (Checking i (num_frames stats)); GetFrame i]).
Proof.
  intros Hd. unfold desync_step.
  unfold bind at 1. cbn [emit ok].
  unfold bind at 1. rewrite (get_frame_prop_run stats i d g Hd). cbn [ok].
  destruct (PyFloat.lt Thresholds.desync_thr d); reflexivity.
Qed.

Lemma first_exceeding_unique stats a i j :
  first_exceeding stats a i -> first_exceeding stats a j -> i = j.
Proof.
  intros (Hi & Ei & Mi) (Hj & Ej & Mj).
  destruct (Z.lt_trichotomy i j) as [H | [H | H]]; [|exact H|].
  - exfalso. apply (Mj i); [lia | exact Ei].
  - exfalso. apply (Mi j); [lia | exact Ej].
Qed.

Lemma requested_step a n t :
  requested ([Print (Checking a n); GetFrame a] ++ t) = a :: requested t.
Proof. reflexivity. Qed.

Lemma reported_step a n t :
  reported ([Print (Checking a n); GetFrame a] ++ t) = reported t.
Proof. reflexivity. Qed.

(** The loop from [a] on either stops at the first exceeding index, having
    requested the frames up to it, or runs through all frames. *)
Lemma scan_from {S} (stats : VideoNode) (g : S) (k : nat) : forall a,
  Z.to_nat (num_frames stats - a) = k ->
  0 <= a <= num_frames stats ->
  exists t,
    for_break (range a (num_frames stats)) (desync_step stats) g = (ok tt, g, t)
    /\ ((exists i, first_exceeding stats a i
                   /\ reported t = [i]
                   /\ requested t = range a (i + 1))
        \/ ((forall j, a <= j < num_frames stats -> ~ exceeds stats j)
            /\ reported t = []
            /\ requested t = range a (num_frames stats))).
Proof.
  induction k as [|k IH]; intros a Hk Ha.
  - exists []. rewrite range_nil by lia. split; [reflexivity|].
    right. split; [intros j Hj; lia|]. split; reflexivity.
  - assert (Hlt : a < num_frames stats) by lia.
    destruct (stat_exists stats a) as [d Hd]; [lia|].
    rewrite (range_cons a) by exact Hlt. cbn [for_break].
    unfold bind at 1. rewrite (desync_step_run stats a d g Hd).
    destruct (PyFloat.lt Thresholds.desync_thr d) eqn:E.
    + eexists. split; [reflexivity|]. left. exists a. split; [|split].
      * split; [lia|]. split; [exists d; split; assumption|].
        intros j Hj. lia.
      * reflexivity.
      * rewrite range_cons, range_nil by lia. reflexivity.
    + destruct (IH (a + 1)) as (t & Hrun & Ht); [lia | lia |].
      cbn [ok]. rewrite Hrun.
      eexists. split; [reflexivity|].
      assert (Ha_no : ~ exceeds stats a).
      { intros (d' & Hd' & Ed').
        rewrite (stat_is_inj stats a d' d Hd' Hd) in Ed'. congruence. }
      destruct Ht as [(i & (Hi & Ei & Mi) & Hrep & Hreq) | (Hnone & Hrep & Hreq)].
      * left. exists i. split; [|split].
        -- split; [lia|]. split; [exact Ei|].
           intros j Hj. destruct (Z.eq_dec j a) as [-> | Hne];
             [exact Ha_no | apply Mi; lia].
        -- rewrite reported_step. exact Hrep.
        -- rewrite requested_step, Hreq.
           rewrite (range_cons a) by lia. reflexivity.
      * right. split; [|split].
        -- intros j Hj. destruct (Z.eq_dec j a) as [-> | Hne];
             [exact Ha_no | apply Hnone; lia].
        -- rewrite reported_step. exact Hrep.
        -- rewrite requested_step, Hreq. reflexivity.
Qed.

(** C3. Started at [0 <= start <= n], the scanner returns normally; it
    reports index [i] iff [i] is the smallest index in [start, n) whose
    DiffValue exceeds 0.150000, and then the frames it requested are exactly
    [start .. i]; if every DiffValue in [start, n) is at most 0.150000 it
    reports nothing and has requested exactly [start .. n-1]; it requests no
    frame before [start], hence reports none. *)
Theorem desync_reports_first_exceeding {S} (stats : VideoNode) (start : Z)
        (g : S) :
  0 <= start <= num_frames stats ->
  let o := desync stats start g in
  value o = ok tt
  /\ (forall i, reported (trace o) = [i] <-> first_exceeding stats start i)
  /\ (forall i, In i (reported (trace o)) -> reported (trace o) = [i])
  /\ (forall i, reported (trace o) = [i] ->
                requested (trace o) = range start (i + 1))
  /\ ((forall j d, start <= j < num_frames stats -> stat_is stats j d ->
                   PyFloat.le d Thresholds.desync_thr = true) ->
      reported (trace o) = []
      /\ requested (trace o) = range start (num_frames stats))
  /\ (forall j, In j (requested (trace o)) -> start <= j < num_frames stats)
  /\ (forall i, In i (reported (trace o)) -> start <= i < num_frames stats).
Proof.
  intros Hstart o.
  destruct (scan_from stats g (Z.to_nat (num_frames stats - start)) start
              eq_refl Hstart) as (t & Hrun & Ht).
  subst o. unfold desync. rewrite Hrun. unfold value, trace. cbn [fst snd].
  split; [reflexivity|].
  destruct Ht as [(i & Hfirst & Hrep & Hreq) | (Hnone & Hrep & Hreq)];
    rewrite Hrep, Hreq.
  - pose proof Hfirst as (Hi & Ei & Mi).
    split; [|split; [|split; [|split; [|split]]]].
    + intros i'. split.
      * intros [= <-]. exact Hfirst.
      * intros Hfirst'. f_equal.
        exact (first_exceeding_unique stats start i i' Hfirst Hfirst').
    + intros i' [<- | []]. reflexivity.
    + intros i' [= <-]. reflexivity.
    + intros Hall. exfalso.
      destruct Ei as (d & Hd & Ed).
      rewrite (le_not_gt _ _ (Hall i d Hi Hd)) in Ed. discriminate.
    + intros j Hj. apply in_range in Hj. lia.
    + intros i' [<- | []]. exact Hi.
  - split; [|split; [|split; [|split; [|split]]]].
    + intros i. split; [discriminate|].
      intros (Hi & Ei & _). exfalso. exact (Hnone i Hi Ei).
    + intros i [].
    + intros i [=].
    + intros _. split; reflexivity.
    + intros j Hj. apply in_range in Hj. exact Hj.
    + intros i [].
Qed.

(** ** The classifier *)

Lemma stat_is_luma (clip : VideoNode) (n : Z) (v : PyFloat.float) :
  stat_is clip n v -> luma clip n = v.
Proof.
  intros [_ Hv]. unfold luma. apply nth_error_nth. exact Hv.
Qed.

Lemma stat_is_bounds (clip : VideoNode) (n : Z) (v : PyFloat.float) :
  stat_is clip n v -> 0 <= n < num_frames clip.
Proof.
  intros [Hn Hv]. unfold num_frames.
  assert ((Z.to_nat n < length (plane_stats clip))%nat)
    by (apply nth_error_Some; congruence).
  lia.
Qed.

Lemma checkclip_appends (n : Z) (avg : PyFloat.float) (b : buckets) :
  checkclip n avg b =
  (fst b ++ (if is_dark avg then [n] else []),
   snd b ++ (if negb (is_dark avg) && is_light avg then [n] else [])).
Proof.
  destruct b as [dark light]. unfold checkclip. cbn [fst snd].
  destruct (is_dark avg), (is_light avg); cbn [negb andb];
    rewrite ?app_nil_r; reflexivity.
Qed.

Lemma render_run {S} (clip : VideoNode) (g : S) (frames : list Z) :
  forall b,
    Forall (fun n => 0 <= n < num_frames clip) frames ->
    render clip frames b g =
    (ok (fst b ++ filter (lands_in_dark clip) frames,
         snd b ++ filter (lands_in_light clip) frames),
     g, map GetFrame frames).
Proof.
  induction frames as [|n rest IH]; intros b Hall.
  - cbn. rewrite !app_nil_r. destruct b; reflexivity.
  - apply Forall_cons_iff in Hall. destruct Hall as [Hn Hrest].
    destruct (stat_exists clip n Hn) as [v Hv].
    cbn [render]. unfold bind.
    rewrite (get_frame_prop_run clip n v g Hv). cbn [ok].
    rewrite (IH _ Hrest), checkclip_appends. cbn [fst snd filter map app].
    unfold lands_in_dark at 2, lands_in_light at 2.
    rewrite (stat_is_luma clip n v Hv).
    rewrite <- !app_assoc.
    destruct (is_dark v), (is_light v); reflexivity.
Qed.

Lemma clip_async_render_run {S} (clip : VideoNode) (g : S) :
  clip_async_render clip g =
  (ok (classified clip), g, map GetFrame (range 0 (num_frames clip))).
Proof.
  unfold clip_async_render. rewrite render_run.
  - reflexivity.
  - apply Forall_forall. intros n Hn. apply in_range in Hn. exact Hn.
Qed.

Lemma in_dark_bucket (clip : VideoNode) (n : Z) (avg : PyFloat.float) :
  stat_is clip n avg ->
  In n (fst (classified clip)) <-> is_dark avg = true.
Proof.
  intros Hn. unfold classified. cbn [fst].
  rewrite filter_In, in_range. unfold lands_in_dark.
  rewrite (stat_is_luma clip n avg Hn).
  pose proof (stat_is_bounds clip n avg Hn). tauto.
Qed.

Lemma in_light_bucket (clip : VideoNode) (n : Z) (avg : PyFloat.float) :
  stat_is clip n avg ->
  In n (snd (classified clip)) <-> is_dark avg = false /\ is_light avg = true.
Proof.
  intros Hn. unfold classified. cbn [snd].
  rewrite filter_In, in_range. unfold lands_in_light.
  rewrite (stat_is_luma clip n avg Hn).
  pose proof (stat_is_bounds clip n avg Hn).
  rewrite andb_true_iff, negb_true_iff. tauto.
Qed.

Lemma buckets_disjoint (clip : VideoNode) (m : Z) :
  ~ (In m (fst (classified clip)) /\ In m (snd (classified clip))).
Proof.
  unfold classified. cbn [fst snd]. rewrite !filter_In.
  unfold lands_in_dark, lands_in_light.
  intros [[_ Hd] [_ Hl]]. rewrite Hd in Hl. discriminate.
Qed.

(** C4. Rendering puts frame [n] with luma [avg] into the dark list iff
    [0.062746 <= avg <= 0.380000], into the light list iff [avg] is outside
    that range and [0.450000 <= avg <= 0.800000], and into neither list
    otherwise; no frame index is in both lists. *)
Theorem checkclip_classifies {S} (clip : VideoNode) (g : S)
        (n : Z) (avg : PyFloat.float) :
  stat_is clip n avg ->
  exists dark light,
    value (clip_async_render clip g) = ok (dark, light)
    /\ (In n dark <->
        PyFloat.le Thresholds.dark_lo avg = true
        /\ PyFloat.le avg Thresholds.dark_hi = true)
    /\ (In n light <->
        ~ (PyFloat.le Thresholds.dark_lo avg = true
           /\ PyFloat.le avg Thresholds.dark_hi = true)
        /\ PyFloat.le Thresholds.light_lo avg = true
        /\ PyFloat.le avg Thresholds.light_hi = true)
    /\ (~ In n dark /\ ~ In n light <->
        ~ (PyFloat.le Thresholds.dark_lo avg = true
           /\ PyFloat.le avg Thresholds.dark_hi = true)
        /\ ~ (PyFloat.le Thresholds.light_lo avg = true
              /\ PyFloat.le avg Thresholds.light_hi = true))
    /\ (forall m, ~ (In m dark /\ In m light)).
Proof.
  intros Hn.
  exists (fst (classified clip)), (snd (classified clip)).
  rewrite clip_async_render_run. unfold value. cbn [fst].
  pose proof (in_dark_bucket clip n avg Hn) as Hd.
  pose proof (in_light_bucket clip n avg Hn) as Hl.
  unfold is_dark in Hd, Hl. unfold is_light in Hl.
  rewrite andb_true_iff in Hd. rewrite andb_true_iff in Hl.
  rewrite <- not_true_iff_false, andb_true_iff in Hl.
  split; [destruct (classified clip); reflexivity|].
  split; [exact Hd|].
  split; [exact Hl|].
  split; [|exact (buckets_disjoint clip)].
  rewrite Hd, Hl. tauto.
Qed.

(** ** Sorting *)

Lemma in_insert x y l : In x (insert y l) <-> x = y \/ In x l.
Proof.
  induction l as [|z l IH]; cbn.
  - intuition congruence.
  - destruct (y <=? z); cbn; rewrite ?IH; intuition congruence.
Qed.

Lemma in_sort x l : In x (sort l) <-> In x l.
Proof.
  induction l as [|y l IH]; cbn.
  - tauto.
  - rewrite in_insert, IH. intuition congruence.
Qed.

Lemma sort_nil_iff l : sort l = [] <-> l = [].
Proof.
  split.
  - destruct l as [|y l]; [reflexivity|]. intros H. exfalso.
    assert (Hin : In y (sort (y :: l))) by (apply in_sort; left; reflexivity).
    rewrite H in Hin. exact Hin.
  - intros ->. reflexivity.
Qed.

Lemma sort_increasing l : StronglySorted Z.lt l -> sort l = l.
Proof.
  induction 1 as [|x l Hs IH Hx]; cbn.
  - reflexivity.
  - rewrite IH. destruct l as [|y l]; [reflexivity|].
    cbn. apply Forall_inv in Hx.
    replace (x <=? y) with true by (symmetry; apply Z.leb_le; lia).
    reflexivity.
Qed.

Lemma range_increasing (k : nat) : forall a,
  StronglySorted Z.lt (map (fun d => a + Z.of_nat d) (seq 0 k)).
Proof.
  induction k as [|k IH]; intros a; cbn [seq map].
  - constructor.
  - constructor.
    + rewrite <- seq_shift, map_map.
      replace (map (fun d => a + Z.of_nat (S d)) (seq 0 k))
        with (map (fun d => (a + 1) + Z.of_nat d) (seq 0 k))
        by (apply map_ext; intros d; lia).
      apply IH.
    + apply Forall_forall. intros x Hx. apply in_map_iff in Hx.
      destruct Hx as [d [<- Hd]]. apply in_seq in Hd. lia.
Qed.

Lemma filter_increasing (f : Z -> bool) l :
  StronglySorted Z.lt l -> StronglySorted Z.lt (filter f l).
Proof.
  induction 1 as [|x l Hs IH Hx]; cbn.
  - constructor.
  - destruct (f x); [|exact IH].
    constructor; [exact IH|].
    apply Forall_forall. intros y Hy. apply filter_In in Hy.
    rewrite Forall_forall in Hx. apply Hx. tauto.
Qed.

(** The buckets [lazylist] deduplicates are strictly increasing, and sorting
    leaves them as rendering built them. *)
Lemma classified_increasing (clip : VideoNode) :
  StronglySorted Z.lt (fst (classified clip))
  /\ StronglySorted Z.lt (snd (classified clip)).
Proof.
  unfold classified. cbn [fst snd].
  split; apply filter_increasing; apply range_increasing.
Qed.

Lemma sort_classified (clip : VideoNode) :
  sort (fst (classified clip)) = fst (classified clip)
  /\ sort (snd (classified clip)) = snd (classified clip).
Proof.
  destruct (classified_increasing clip).
  split; apply sort_increasing; assumption.
Qed.

(** ** Sampling *)

Section SamplingFacts.

Context {R : PyRandom}.

Lemma sample_bucket_keeps seed deduped frames g :
  Z.of_nat (length deduped) <= frames ->
  sample_bucket seed deduped frames g = (ok deduped, g, []).
Proof.
  intros H. unfold sample_bucket.
  replace (Z.of_nat (length deduped) >? frames) with false
    by (symmetry; rewrite Z.gtb_ltb; apply Z.ltb_ge; exact H).
  reflexivity.
Qed.

Lemma sample_bucket_draws seed deduped frames g :
  frames < Z.of_nat (length deduped) ->
  sample_bucket seed deduped frames g =
  (random_sample deduped frames (random_seed seed), []).
Proof.
  intros H. unfold sample_bucket.
  replace (Z.of_nat (length deduped) >? frames) with true
    by (symmetry; rewrite Z.gtb_ltb; apply Z.ltb_lt; exact H).
  unfold bind, seed_generator, sample. cbn [ok].
  destruct (random_sample deduped frames (random_seed seed)) as [r g'].
  destruct r; reflexivity.
Qed.

Lemma sample_bucket_value seed deduped frames g :
  value (sample_bucket seed deduped frames g) = drawn seed deduped frames.
Proof.
  unfold drawn. destruct (Z.of_nat (length deduped) >? frames) eqn:E.
  - rewrite sample_bucket_draws
      by (rewrite Z.gtb_ltb in E; apply Z.ltb_lt; exact E).
    reflexivity.
  - rewrite sample_bucket_keeps
      by (rewrite Z.gtb_ltb in E; apply Z.ltb_ge; exact E).
    reflexivity.
Qed.

Lemma sample_bucket_trace seed deduped frames g :
  trace (sample_bucket seed deduped frames g) = [].
Proof.
  destruct (Z_le_gt_dec (Z.of_nat (length deduped)) frames) as [H | H].
  - rewrite sample_bucket_keeps by exact H. reflexivity.
  - rewrite sample_bucket_draws by lia. reflexivity.
Qed.

Lemma bind_run {A B} (m : M rng_state A) (k : A -> M rng_state B) g :
  bind m k g =
  match value (m g) with
  | inl e => (inl e, generator (m g), trace (m g))
  | inr a =>
      (value (k a (generator (m g))), generator (k a (generator (m g))),
       trace (m g) ++ trace (k a (generator (m g))))
  end.
Proof.
  unfold bind, value, generator, trace.
  destruct (m g) as [[[e | a] g1] t1]; cbn [fst snd]; [reflexivity|].
  destruct (k a g1) as [[r g2] t2]. reflexivity.
Qed.

Lemma sampling_value seed dd dk ld lk g :
  value (sampling seed dd dk ld lk g) =
  rbind (drawn seed dd dk) (fun d =>
  rbind (drawn seed ld lk) (fun l => ok (d ++ l))).
Proof.
  unfold sampling. rewrite bind_run, sample_bucket_value.
  destruct (drawn seed dd dk) as [e | d]; [reflexivity|].
  cbn [rbind]. unfold value at 1. cbn [fst].
  rewrite bind_run, sample_bucket_value.
  destruct (drawn seed ld lk) as [e | l]; reflexivity.
Qed.

Lemma sampling_trace seed dd dk ld lk g :
  trace (sampling seed dd dk ld lk g) = [].
Proof.
  unfold sampling. rewrite bind_run.
  destruct (value (sample_bucket seed dd dk g)) as [e | d].
  - unfold trace at 1. cbn [snd]. apply sample_bucket_trace.
  - unfold trace at 1. cbn [snd]. rewrite sample_bucket_trace. cbn [app].
    rewrite bind_run.
    destruct (value (sample_bucket seed ld lk _)) as [e | l];
      unfold trace at 1; cbn [snd]; rewrite sample_bucket_trace; reflexivity.
Qed.

(** What a successful draw is made of. *)
Lemma drawn_positions seed deduped frames :
  0 <= frames < Z.of_nat (length deduped) ->
  exists js,
    drawn seed deduped frames = ok (map (fun j => nth j deduped 0) js)
    /\ length js = Z.to_nat frames
    /\ NoDup js
    /\ Forall (fun j => (j < length deduped)%nat) js.
Proof.
  intros H. unfold drawn.
  replace (Z.of_nat (length deduped) >? frames) with true
    by (symmetry; rewrite Z.gtb_ltb; apply Z.ltb_lt; lia).
  apply random_sample_draws. lia.
Qed.

Lemma drawn_negative seed deduped frames :
  frames < 0 -> drawn seed deduped frames = raise ValueError.
Proof.
  intros H. unfold drawn.
  replace (Z.of_nat (length deduped) >? frames) with true
    by (symmetry; rewrite Z.gtb_ltb; apply Z.ltb_lt; lia).
  rewrite random_sample_rejects by lia. reflexivity.
Qed.

Lemma drawn_incl seed deduped frames out x :
  drawn seed deduped frames = ok out -> In x out -> In x deduped.
Proof.
  intros Hout Hx.
  destruct (Z_lt_ge_dec frames 0) as [Hneg | Hpos].
  - rewrite drawn_negative in Hout by exact Hneg. discriminate.
  - destruct (Z_lt_ge_dec frames (Z.of_nat (length deduped))) as [Hlt | Hge].
    + destruct (drawn_positions seed deduped frames) as (js & Hjs & _ & _ & Hb);
        [lia|].
      rewrite Hjs in Hout. injection Hout as <-.
      apply in_map_iff in Hx. destruct Hx as (j & <- & Hj).
      rewrite Forall_forall in Hb. apply nth_In. apply Hb. exact Hj.
    + unfold drawn in Hout.
      replace (Z.of_nat (length deduped) >? frames) with false in Hout
        by (symmetry; rewrite Z.gtb_ltb; apply Z.ltb_ge; lia).
      injection Hout as <-. exact Hx.
Qed.

Lemma NoDup_map_nth (l : list Z) (js : list nat) :
  NoDup l -> NoDup js -> Forall (fun j => (j < length l)%nat) js ->
  NoDup (map (fun j => nth j l 0) js).
Proof.
  intros Hl Hjs Hb. apply NoDup_map_NoDup_ForallPairs; [|exact Hjs].
  intros i j Hi Hj Heq. rewrite Forall_forall in Hb.
  exact (proj1 (NoDup_nth l 0) Hl i j (Hb i Hi) (Hb j Hj) Heq).
Qed.

(** C5. For a target count [k >= 0]: a list of length at most [k] is returned
    as it is, and the generator is not touched; a longer list yields the
    elements at [k] pairwise different positions of it (so [k] distinct
    elements when the list has no duplicates, as a deduplicated list has);
    either way the bucket's size is [min(len(list), k)]. *)
Theorem sample_bucket_size (seed : Z) (deduped : list Z) (k : Z)
        (g : rng_state) :
  0 <= k ->
  (Z.of_nat (length deduped) <= k ->
   sample_bucket seed deduped k g = (ok deduped, g, []))
  /\ (k < Z.of_nat (length deduped) ->
      exists js,
        value (sample_bucket seed deduped k g) =
          ok (map (fun j => nth j deduped 0) js)
        /\ Z.of_nat (length js) = k
        /\ NoDup js
        /\ Forall (fun j => (j < length deduped)%nat) js
        /\ (NoDup deduped -> NoDup (map (fun j => nth j deduped 0) js)))
  /\ exists out,
       value (sample_bucket seed deduped k g) = ok out
       /\ Z.of_nat (length out) = Z.min (Z.of_nat (length deduped)) k
       /\ incl out deduped.
Proof.
  intros Hk.
  assert (Hdraw : k < Z.of_nat (length deduped) ->
      exists js,
        value (sample_bucket seed deduped k g) =
          ok (map (fun j => nth j deduped 0) js)
        /\ Z.of_nat (length js) = k
        /\ NoDup js
        /\ Forall (fun j => (j < length deduped)%nat) js
        /\ (NoDup deduped -> NoDup (map (fun j => nth j deduped 0) js))).
  { intros Hlt. rewrite sample_bucket_value.
    destruct (drawn_positions seed deduped k) as (js & Hjs & Hlen & Hnd & Hb);
      [lia|].
    exists js. repeat split; try assumption; [lia|].
    intros Hl. apply NoDup_map_nth; assumption. }
  split; [apply sample_bucket_keeps|].
  split; [exact Hdraw|].
  destruct (Z_lt_ge_dec k (Z.of_nat (length deduped))) as [Hlt | Hge].
  - destruct (Hdraw Hlt) as (js & Hjs & Hlen & _ & _ & _).
    exists (map (fun j => nth j deduped 0) js).
    split; [exact Hjs|]. split; [rewrite length_map; lia|].
    intros x Hx. rewrite sample_bucket_value in Hjs.
    exact (drawn_incl seed deduped k _ x Hjs Hx).
  - exists deduped. rewrite sample_bucket_keeps by lia.
    split; [reflexivity|]. split; [lia|]. apply incl_refl.
Qed.

End SamplingFacts.

(** ** The [lazylist] pipeline *)

Section LazylistFacts.

Context {R : PyRandom}.

Lemma bind_value_ok {A B} (m : M rng_state A) (k : A -> M rng_state B)
      g a g1 t1 :
  m g = (ok a, g1, t1) ->
  bind m k g = (value (k a g1), generator (k a g1), t1 ++ trace (k a g1)).
Proof.
  intros Hm. unfold bind, value, generator, trace. rewrite Hm. unfold ok.
  destruct (k a g1) as [[r g2] t2]. reflexivity.
Qed.

Lemma bind_lift {A B} (r : result A) (k : A -> M rng_state B) g :
  bind (lift r) k g =
  match r with
  | inl e => (inl e, g, [])
  | inr a => k a g
  end.
Proof.
  unfold bind, lift. destruct r as [e | a]; [reflexivity|].
  destruct (k a g) as [[r2 g2] t2]. reflexivity.
Qed.

(** One run of [lazylist], stage by stage: every frame is requested, then an
    empty bucket or a failing threshold computation ends the run, and
    otherwise the two greedy lists go through sampling. *)
Lemma lazylist_run clip dark_frames light_frames seed diff_thr g :
  lazylist clip dark_frames light_frames seed diff_thr g =
  let dark := sort (fst (classified clip)) in
  let light := sort (snd (classified clip)) in
  let t := map GetFrame (range 0 (num_frames clip)) in
  match dark with
  | [] => (raise IndexError, g, t)
  | _ :: _ =>
      match light with
      | [] => (raise IndexError, g, t)
      | _ :: _ =>
          match threshold clip diff_thr with
          | inl e => (raise e, g, t)
          | inr thr =>
              let o := sampling seed (greedy_dedupe thr dark) dark_frames
                                     (greedy_dedupe thr light) light_frames g in
              (value o, generator o, t ++ trace o)
          end
      end
  end.
Proof.
  unfold lazylist.
  rewrite (bind_value_ok _ _ g _ _ _ (clip_async_render_run clip g)).
  cbv zeta.
  set (dark := sort (fst (classified clip))).
  set (light := sort (snd (classified clip))).
  set (t := map GetFrame (range 0 (num_frames clip))).
  rewrite bind_lift.
  destruct dark as [|d0 dark'].
  { rewrite getitem_0_nil. cbn. rewrite app_nil_r. reflexivity. }
  rewrite getitem_0_cons. cbn [ok]. rewrite bind_lift.
  destruct light as [|l0 light'].
  { rewrite getitem_0_nil. cbn. rewrite app_nil_r. reflexivity. }
  rewrite getitem_0_cons. cbn [ok]. rewrite bind_lift.
  destruct (threshold clip diff_thr) as [e | thr].
  { cbn. rewrite app_nil_r. reflexivity. }
  rewrite bind_lift. cbn [ok].
  rewrite bind_lift. cbn [ok].
  rewrite !dedupe_loop_greedy.
  reflexivity.
Qed.

Lemma lazylist_trace clip dark_frames light_frames seed diff_thr g :
  trace (lazylist clip dark_frames light_frames seed diff_thr g) =
  map GetFrame (range 0 (num_frames clip)).
Proof.
  rewrite lazylist_run. cbv zeta.
  destruct (sort (fst (classified clip))); [reflexivity|].
  destruct (sort (snd (classified clip))); [reflexivity|].
  destruct (threshold clip diff_thr); [reflexivity|].
  unfold trace at 1. cbn [snd]. rewrite sampling_trace. apply app_nil_r.
Qed.

Lemma requested_get_frames l : requested (map GetFrame l) = l.
Proof.
  induction l as [|n l IH]; cbn; [reflexivity|].
  f_equal. exact IH.
Qed.

(** C6. The list [lazylist] returns (or the exception it raises) and the
    frames it requests are the same from any two states of the random
    generator: two runs on the same clip, counts, seed and [diff_thr] agree
    whatever the generator did before. *)
Theorem lazylist_deterministic (clip : VideoNode)
        (dark_frames light_frames seed diff_thr : Z) (g1 g2 : rng_state) :
  value (lazylist clip dark_frames light_frames seed diff_thr g1) =
  value (lazylist clip dark_frames light_frames seed diff_thr g2)
  /\ trace (lazylist clip dark_frames light_frames seed diff_thr g1) =
     trace (lazylist clip dark_frames light_frames seed diff_thr g2).
Proof.
  split; [|rewrite !lazylist_trace; reflexivity].
  rewrite !lazylist_run. cbv zeta.
  destruct (sort (fst (classified clip))); [reflexivity|].
  destruct (sort (snd (classified clip))); [reflexivity|].
  destruct (threshold clip diff_thr); [reflexivity|].
  unfold value at 1 3. cbn [fst].
  rewrite !sampling_value. reflexivity.
Qed.

(** C7 (what the code does). When rendering leaves the dark or the light
    list empty, [lazylist] raises [IndexError] at [dark[0]] or [light[0]]
    instead of returning a list. *)
Theorem lazylist_empty_bucket_raises (clip : VideoNode)
        (dark_frames light_frames seed diff_thr : Z) (g : rng_state)
        (b : buckets) :
  value (clip_async_render clip g) = ok b ->
  fst b = [] \/ snd b = [] ->
  value (lazylist clip dark_frames light_frames seed diff_thr g)
  = raise IndexError.
Proof.
  rewrite clip_async_render_run. unfold value at 1. cbn [fst].
  intros [= <-] Hempty.
  rewrite lazylist_run. cbv zeta.
  destruct Hempty as [H | H]; rewrite H; cbn [sort]; [reflexivity|].
  destruct (sort (fst (classified clip))); reflexivity.
Qed.

(** C9. Every index in a list that [lazylist] returns is a frame of the clip
    whose luma lies in the dark range or in the light range. *)
Theorem lazylist_returns_classified (clip : VideoNode)
        (dark_frames light_frames seed diff_thr : Z) (g : rng_state)
        (out : list Z) :
  value (lazylist clip dark_frames light_frames seed diff_thr g) = ok out ->
  forall n, In n out ->
    exists avg,
      stat_is clip n avg /\ (is_dark avg = true \/ is_light avg = true).
Proof.
  rewrite lazylist_run. cbv zeta.
  destruct (sort (fst (classified clip))) as [|d0 dark'] eqn:Ed; [discriminate|].
  destruct (sort (snd (classified clip))) as [|l0 light'] eqn:El; [discriminate|].
  destruct (threshold clip diff_thr) as [e | thr]; [discriminate|].
  unfold value at 1. cbn [fst]. rewrite sampling_value.
  destruct (drawn seed (greedy_dedupe thr (d0 :: dark')) dark_frames)
    as [e | d] eqn:Hd; [discriminate|].
  destruct (drawn seed (greedy_dedupe thr (l0 :: light')) light_frames)
    as [e | l] eqn:Hl; [discriminate|].
  cbn [rbind]. intros [= <-] n Hn.
  apply in_app_or in Hn. destruct Hn as [Hn | Hn].
  - apply (drawn_incl _ _ _ _ _ Hd) in Hn.
    apply greedy_dedupe_incl in Hn. rewrite <- Ed in Hn.
    apply (proj1 (in_sort _ _)) in Hn. unfold classified in Hn. cbn [fst] in Hn.
    apply filter_In in Hn. destruct Hn as [Hr Hdark].
    apply in_range in Hr. destruct (stat_exists clip n Hr) as [avg Havg].
    exists avg. split; [exact Havg|]. left.
    unfold lands_in_dark in Hdark.
    rewrite (stat_is_luma clip n avg Havg) in Hdark. exact Hdark.
  - apply (drawn_incl _ _ _ _ _ Hl) in Hn.
    apply greedy_dedupe_incl in Hn. rewrite <- El in Hn.
    apply (proj1 (in_sort _ _)) in Hn. unfold classified in Hn. cbn [snd] in Hn.
    apply filter_In in Hn. destruct Hn as [Hr Hlight].
    apply in_range in Hr. destruct (stat_exists clip n Hr) as [avg Havg].
    exists avg. split; [exact Havg|]. right.
    unfold lands_in_light in Hlight.
    rewrite (stat_is_luma clip n avg Havg) in Hlight.
    apply andb_true_iff in Hlight. tauto.
Qed.

(** C10. The sampling stage yields the dark bucket's draw followed by the
    light bucket's draw, and each draw is a function of the seed, that
    bucket's deduplicated list and that bucket's target count: it is the same
    from every generator state, whatever the other bucket was and whether it
    was sampled.  Two buckets with equal lists and counts hence get equal
    draws. *)
Theorem sampling_per_bucket (seed : Z) (dark_dedupe light_dedupe : list Z)
        (dark_frames light_frames : Z) (g ga gb : rng_state) :
  value (sampling seed dark_dedupe dark_frames light_dedupe light_frames g) =
    rbind (value (sample_bucket seed dark_dedupe dark_frames ga)) (fun d =>
    rbind (value (sample_bucket seed light_dedupe light_frames gb)) (fun l =>
    ok (d ++ l)))
  /\ value (sample_bucket seed dark_dedupe dark_frames ga) =
     value (sample_bucket seed dark_dedupe dark_frames gb)
  /\ value (sample_bucket seed light_dedupe light_frames ga) =
     value (sample_bucket seed light_dedupe light_frames gb)
  /\ (dark_dedupe = light_dedupe -> dark_frames = light_frames ->
      value (sample_bucket seed dark_dedupe dark_frames ga) =
      value (sample_bucket seed light_dedupe light_frames gb)).
Proof.
  rewrite sampling_value, !sample_bucket_value.
  repeat split. intros -> ->. reflexivity.
Qed.

End LazylistFacts.

(** ** Parameters are not validated *)

Lemma desync_past_the_end {S} (stats : VideoNode) (start : Z) (g : S) :
  num_frames stats <= start -> desync stats start g = (ok tt, g, []).
Proof.
  intros H. unfold desync. rewrite range_nil by exact H. reflexivity.
Qed.

Lemma greedy_from_keeps_all thr rest : forall last,
  thr <= 0 ->
  Forall (Z.lt last) rest -> StronglySorted Z.lt rest ->
  greedy_from thr last rest = rest.
Proof.
  induction rest as [|x rest IH]; intros last Hthr Hlast Hsorted;
    cbn [greedy_from]; [reflexivity|].
  apply StronglySorted_inv in Hsorted. destruct Hsorted as [Hrest Hx].
  apply Forall_inv in Hlast.
  replace (x >=? last + thr) with true by (symmetry; apply Z.geb_le; lia).
  f_equal. apply IH; assumption.
Qed.

Lemma dedupe_keeps_all thr bucket :
  thr <= 0 -> StronglySorted Z.lt bucket -> bucket <> [] ->
  dedupe thr bucket = ok bucket.
Proof.
  intros Hthr Hsorted Hne. destruct bucket as [|first rest]; [congruence|].
  rewrite dedupe_cons. cbn [greedy_dedupe].
  apply StronglySorted_inv in Hsorted. destruct Hsorted as [Hrest Hfirst].
  rewrite greedy_from_keeps_all by assumption. reflexivity.
Qed.

(** C8 (counterexample). A start index beyond the frame count, a target
    count of zero and a [diff_thr] of zero are all accepted without an error;
    a negative target count is refused only by [random.sample], after all
    five frames were requested. *)
Lemma invalid_parameters_not_rejected_eagerly :
  desync four_diffs 9 tt = (ok tt, tt, [])
  /\ lazylist (R := RotatingRandom) five_frames 0 4 20202020 1 0 =
     (ok [2; 3], 20202021,
      [GetFrame 0; GetFrame 1; GetFrame 2; GetFrame 3; GetFrame 4])
  /\ lazylist (R := RotatingRandom) five_frames 8 4 20202020 0 0 =
     (ok [0; 1; 4; 2; 3], 0,
      [GetFrame 0; GetFrame 1; GetFrame 2; GetFrame 3; GetFrame 4])
  /\ lazylist (R := RotatingRandom) five_frames (-1) 4 20202020 1 0 =
     (raise ValueError, 20202020,
      [GetFrame 0; GetFrame 1; GetFrame 2; GetFrame 3; GetFrame 4]).
Proof.
  repeat split; vm_compute; reflexivity.
Qed.

Section ParameterFacts.

Context {R : PyRandom}.

(** C8 (as the code has it). No parameter is checked before statistics are
    read.  [desync] with [start] at or beyond the frame count requests no
    frame, prints nothing and returns normally.  [lazylist] requests every
    frame of the clip whatever its parameters are.  A [thr <= 0] is accepted:
    deduplication then keeps a strictly increasing bucket whole.  A target
    count of zero is accepted: sampling a non-empty list then yields the empty
    list.  A negative target count makes the sampling step raise
    [ValueError]. *)
Theorem parameters_checked_late_or_never :
  (forall (stats : VideoNode) (start : Z) (g : rng_state),
      num_frames stats <= start -> desync stats start g = (ok tt, g, []))
  /\ (forall clip dark_frames light_frames seed diff_thr g,
         requested
           (trace (lazylist clip dark_frames light_frames seed diff_thr g))
         = range 0 (num_frames clip))
  /\ (forall thr bucket,
         thr <= 0 -> StronglySorted Z.lt bucket -> bucket <> [] ->
         dedupe thr bucket = ok bucket)
  /\ (forall seed deduped g,
         deduped <> [] -> value (sample_bucket seed deduped 0 g) = ok [])
  /\ (forall seed deduped k g,
         k < 0 -> value (sample_bucket seed deduped k g) = raise ValueError).
Proof.
  split; [intros; apply desync_past_the_end; assumption|].
  split; [intros; rewrite lazylist_trace; apply requested_get_frames|].
  split; [exact dedupe_keeps_all|].
  split.
  - intros seed deduped g Hne. rewrite sample_bucket_value.
    destruct (drawn_positions seed deduped 0) as (js & Hjs & Hlen & _).
    + destruct deduped; [congruence|]. cbn [length]. lia.
    + rewrite Hjs. destruct js; [reflexivity | discriminate].
  - intros seed deduped k g Hk. rewrite sample_bucket_value.
    apply drawn_negative. exact Hk.
Qed.

End ParameterFacts.

(** ** The theorems at work on the example clips *)

Lemma desync_reports_first_exceeding_example :
  0 <= 0 <= num_frames four_diffs
  /\ reported (trace (desync four_diffs 0 tt)) = [2]
  /\ first_exceeding four_diffs 0 2
  /\ requested (trace (desync four_diffs 0 tt)) = [0; 1; 2].
Proof.
  assert (H : 0 <= 0 <= num_frames four_diffs) by (vm_compute; split; discriminate).
  pose proof (desync_reports_first_exceeding (S := unit) four_diffs 0 tt H) as P.
  cbv zeta in P. destruct P as (_ & Piff & _ & Pstop & _).
  assert (Hrep : reported (trace (desync four_diffs 0 tt)) = [2])
    by (vm_compute; reflexivity).
  split; [exact H|].
  split; [exact Hrep|].
  split; [exact (proj1 (Piff 2) Hrep)|].
  rewrite (Pstop 2 Hrep). vm_compute. reflexivity.
Defined.

Lemma checkclip_classifies_example :
  stat_is five_frames 2 (PyFloat.decimal 5 1)
  /\ exists dark light,
       value (clip_async_render five_frames tt) = ok (dark, light)
       /\ In 2 light /\ ~ In 2 dark.
Proof.
  assert (H : stat_is five_frames 2 (PyFloat.decimal 5 1))
    by (split; [discriminate | reflexivity]).
  split; [exact H|].
  destruct (checkclip_classifies (S := unit) five_frames tt 2
              (PyFloat.decimal 5 1) H)
    as (dark & light & Hrun & Hd & Hl & _ & Hdisj).
  exists dark, light.
  assert (Hin : In 2 light).
  { apply Hl. vm_compute. repeat split; try reflexivity.
    intros [_ Hhi]. discriminate Hhi. }
  split; [exact Hrun|]. split; [exact Hin|].
  intros Hdark. exact (Hdisj 2 (conj Hdark Hin)).
Defined.

Lemma sample_bucket_size_example :
  0 <= 2
  /\ exists out,
       value (sample_bucket (R := RotatingRandom) 20202020 [0; 5; 9] 2 7)
         = ok out
       /\ Z.of_nat (length out) = Z.min (Z.of_nat (length [0; 5; 9])) 2
       /\ incl out [0; 5; 9].
Proof.
  assert (H : 0 <= 2) by discriminate.
  split; [exact H|].
  exact (proj2 (proj2 (sample_bucket_size (R := RotatingRandom)
                         20202020 [0; 5; 9] 2 7 H))).
Defined.

Lemma lazylist_deterministic_example :
  value (lazylist (R := RotatingRandom) five_frames 2 1 20202020 1 0) =
  value (lazylist (R := RotatingRandom) five_frames 2 1 20202020 1 5).
Proof.
  exact (proj1 (lazylist_deterministic (R := RotatingRandom)
                  five_frames 2 1 20202020 1 0 5)).
Defined.

Lemma lazylist_empty_bucket_raises_example :
  value (clip_async_render one_dark_frame (0 : Z)) = ok ([0], [])
  /\ value (lazylist (R := RotatingRandom) one_dark_frame
              Defaults.dark_frames Defaults.light_frames Defaults.seed
              Defaults.diff_thr 0)
     = raise IndexError.
Proof.
  assert (H : value (clip_async_render one_dark_frame (0 : Z)) = ok ([0], []))
    by (vm_compute; reflexivity).
  split; [exact H|].
  exact (lazylist_empty_bucket_raises (R := RotatingRandom) one_dark_frame
           Defaults.dark_frames Defaults.light_frames Defaults.seed
           Defaults.diff_thr 0 ([0], []) H (or_intror eq_refl)).
Defined.

Lemma lazylist_returns_classified_example :
  value (lazylist (R := RotatingRandom) five_frames 2 1 20202020 1 5)
    = ok [4; 0; 2]
  /\ forall n, In n [4; 0; 2] ->
       exists avg,
         stat_is five_frames n avg
         /\ (is_dark avg = true \/ is_light avg = true).
Proof.
  assert (H : value (lazylist (R := RotatingRandom) five_frames 2 1 20202020 1 5)
              = ok [4; 0; 2]) by (vm_compute; reflexivity).
  split; [exact H|].
  exact (lazylist_returns_classified (R := RotatingRandom)
           five_frames 2 1 20202020 1 5 [4; 0; 2] H).
Defined.

Lemma sampling_per_bucket_example :
  value (sample_bucket (R := RotatingRandom) 20202020 [0; 5; 9] 2 0) =
  value (sample_bucket (R := RotatingRandom) 20202020 [0; 5; 9] 2 41).
Proof.
  exact (proj2 (proj2 (proj2
           (sampling_per_bucket (R := RotatingRandom) 20202020
              [0; 5; 9] [0; 5; 9] 2 2 17 0 41))) eq_refl eq_refl).
Defined.

Lemma parameters_checked_late_or_never_example :
  desync four_diffs 4 (0 : Z) = (ok tt, 0, [])
  /\ value (sample_bucket (R := RotatingRandom) 20202020 [0; 5; 9] (-1) 0)
     = raise ValueError.
Proof.
  pose proof (parameters_checked_late_or_never (R := RotatingRandom))
    as (Pdesync & _ & _ & _ & Pneg).
  split.
  - apply Pdesync. vm_compute. discriminate.
  - apply Pneg. reflexivity.
Defined.

(** ** Rendering order

    [lazylist] sorts the two lists before it uses them, so the order in which
    the renderer evaluates the frames does not matter: whatever that order,
    the sorted lists are the ones in-order rendering builds. *)

Lemma insert_permutation x l : Permutation (x :: l) (insert x l).
Proof.
  induction l as [|y l IH]; cbn.
  - apply Permutation_refl.
  - destruct (x <=? y); [apply Permutation_refl|].
    eapply perm_trans; [apply perm_swap|]. apply perm_skip. exact IH.
Qed.

Lemma sort_permutation l : Permutation l (sort l).
Proof.
  induction l as [|x l IH]; cbn.
  - apply perm_nil.
  - eapply perm_trans; [apply perm_skip; exact IH|]. apply insert_permutation.
Qed.

Lemma insert_sorted x l :
  StronglySorted Z.le l -> StronglySorted Z.le (insert x l).
Proof.
  induction 1 as [|y l Hs IH Hy]; cbn.
  - repeat constructor.
  - destruct (x <=? y) eqn:E.
    + apply Z.leb_le in E. constructor; [constructor; assumption|].
      constructor; [exact E|].
      apply Forall_impl with (P := Z.le y); [intros; lia | exact Hy].
    + apply Z.leb_gt in E. constructor; [exact IH|].
      apply Forall_forall. intros z Hz. apply in_insert in Hz.
      rewrite Forall_forall in Hy. destruct Hz as [-> | Hz]; [lia | auto].
Qed.

Lemma sort_sorted l : StronglySorted Z.le (sort l).
Proof.
  induction l as [|x l IH]; cbn.
  - constructor.
  - apply insert_sorted. exact IH.
Qed.

Lemma sorted_permutation_eq l1 : forall l2,
  StronglySorted Z.le l1 -> StronglySorted Z.le l2 ->
  Permutation l1 l2 -> l1 = l2.
Proof.
  induction l1 as [|x l1 IH]; intros l2 H1 H2 Hp.
  - apply Permutation_nil in Hp. congruence.
  - destruct l2 as [|y l2].
    + apply Permutation_sym, Permutation_nil in Hp. discriminate.
    + apply StronglySorted_inv in H1. destruct H1 as [H1 Hx].
      apply StronglySorted_inv in H2. destruct H2 as [H2 Hy].
      rewrite Forall_forall in Hx, Hy.
      assert (Hxy : x = y).
      { assert (Hin1 : In x (y :: l2))
          by (apply (Permutation_in _ Hp); left; reflexivity).
        assert (Hin2 : In y (x :: l1))
          by (apply (Permutation_in _ (Permutation_sym Hp)); left; reflexivity).
        destruct Hin1 as [-> | Hin1]; [reflexivity|].
        destruct Hin2 as [-> | Hin2]; [reflexivity|].
        apply Hx in Hin2. apply Hy in Hin1. lia. }
      subst y. f_equal. apply IH; try assumption.
      exact (Permutation_cons_inv Hp).
Qed.

Lemma filter_permutation (f : Z -> bool) l1 l2 :
  Permutation l1 l2 -> Permutation (filter f l1) (filter f l2).
Proof.
  induction 1 as [|x l1 l2 Hp IH|x y l|l1 l2 l3 Hp1 IH1 Hp2 IH2]; cbn.
  - apply perm_nil.
  - destruct (f x); [apply perm_skip|]; exact IH.
  - destruct (f x), (f y); try apply Permutation_refl. apply perm_swap.
  - eapply perm_trans; eassumption.
Qed.

Lemma increasing_is_sorted l : StronglySorted Z.lt l -> StronglySorted Z.le l.
Proof.
  induction 1 as [|x l Hs IH Hx]; constructor; [exact IH|].
  apply Forall_impl with (P := Z.lt x); [intros; lia | exact Hx].
Qed.

Lemma sort_filter_any_order (f : Z -> bool) order a b :
  Permutation order (range a b) ->
  sort (filter f order) = filter f (range a b).
Proof.
  intros Hp. apply sorted_permutation_eq.
  - apply sort_sorted.
  - apply increasing_is_sorted, filter_increasing, range_increasing.
  - eapply perm_trans; [apply Permutation_sym, sort_permutation|].
    apply filter_permutation. exact Hp.
Qed.

Lemma render_any_order {S} (clip : VideoNode) (g : S) (order : list Z) :
  Permutation order (range 0 (num_frames clip)) ->
  exists b,
    render clip order ([], []) g = (ok b, g, map GetFrame order)
    /\ sort (fst b) = fst (classified clip)
    /\ sort (snd b) = snd (classified clip).
Proof.
  intros Hp. eexists. split.
  - apply render_run. apply Forall_forall. intros n Hn.
    apply in_range. exact (Permutation_in _ Hp Hn).
  - cbn [fst snd app]. unfold classified. cbn [fst snd].
    split; apply sort_filter_any_order; exact Hp.
Qed.

(** ** The scenarios of the specification *)

Example scenario_a :
  lazylist (R := RotatingRandom) five_frames Defaults.dark_frames
    Defaults.light_frames Defaults.seed 1 0 =
  (ok [0; 1; 4; 2; 3], 0,
   [GetFrame 0; GetFrame 1; GetFrame 2; GetFrame 3; GetFrame 4]).
Proof. vm_compute. reflexivity. Qed.

Example scenario_b :
  sample_bucket (R := RotatingRandom) Defaults.seed [7] 8 3 = (ok [7], 3, []).
Proof. vm_compute. reflexivity. Qed.

Example scenario_d :
  desync four_diffs 0 tt =
  (ok tt, tt,
   [Print (Checking 0 4); GetFrame 0; Print (Checking 1 4); GetFrame 1;
    Print (Checking 2 4); GetFrame 2; Print (DesyncDetected 2)]).
Proof. vm_compute. reflexivity. Qed.

Example scenario_e :
  let quiet := {| fps_num := 1; fps_den := 1;
                  plane_stats := repeat (PyFloat.decimal 1 1) 5 |} in
  reported (trace (desync quiet 0 tt)) = []
  /\ requested (trace (desync quiet 0 tt)) = [0; 1; 2; 3; 4].
Proof. split; vm_compute; reflexivity. Qed.

Example threshold_ntsc :
  threshold {| fps_num := 24000; fps_den := 1001; plane_stats := [] |}
            Defaults.diff_thr = ok 360.
Proof. vm_compute. reflexivity. Qed.

(* ================================================================== *)
(** * Further properties of [lazylist] and [desync] *)

(** ** Deduplication *)

Lemma greedy_from_covers thr rest : forall last,
  Forall (Z.lt last) rest -> StronglySorted Z.lt rest ->
  forall x, In x rest ->
    In x (greedy_from thr last rest)
    \/ exists a, (a = last \/ In a (greedy_from thr last rest))
                 /\ a < x /\ x - a < thr.
Proof.
  induction rest as [|y rest IH]; intros last Hlast Hsorted x Hx;
    [contradiction|].
  apply StronglySorted_inv in Hsorted. destruct Hsorted as [Hrest Hy].
  apply Forall_cons_iff in Hlast. destruct Hlast as [Hly Hlast].
  cbn [greedy_from]. destruct (y >=? last + thr) eqn:E.
  - destruct Hx as [<- | Hx]; [left; left; reflexivity|].
    destruct (IH y Hy Hrest x Hx) as [Hin | (a & Ha & Hlt & Hgap)].
    + left. right. exact Hin.
    + right. exists a. split; [|split; assumption].
      right. destruct Ha as [-> | Ha]; [left; reflexivity | right; exact Ha].
  - destruct Hx as [<- | Hx].
    + right. exists last. split; [left; reflexivity|].
      split; [exact Hly|]. rewrite Z.geb_leb in E. apply Z.leb_gt in E. lia.
    + exact (IH last Hlast Hrest x Hx).
Qed.

(** X1. Deduplication drops nothing it could keep: of a strictly increasing
    bucket the first index is kept, and every index is either kept or lies
    less than [thr] after a kept index. *)
Theorem dedupe_drops_only_close_frames (thr : Z) (bucket out : list Z) :
  StronglySorted Z.lt bucket ->
  dedupe thr bucket = ok out ->
  hd_error out = hd_error bucket
  /\ forall x, In x bucket ->
       In x out \/ exists a, In a out /\ a < x /\ x - a < thr.
Proof.
  intros Hsorted Hout. destruct bucket as [|first rest]; [discriminate|].
  rewrite dedupe_cons in Hout. injection Hout as <-.
  split; [reflexivity|].
  apply StronglySorted_inv in Hsorted. destruct Hsorted as [Hrest Hfirst].
  intros x [<- | Hx]; [left; left; reflexivity|].
  destruct (greedy_from_covers thr rest first Hfirst Hrest x Hx)
    as [Hin | (a & Ha & Hlt & Hgap)].
  - left. right. exact Hin.
  - right. exists a. split; [|split; assumption].
    destruct Ha as [-> | Ha]; [left; reflexivity | right; exact Ha].
Qed.

Lemma dedupe_drops_only_close_frames_example :
  StronglySorted Z.lt [0; 1; 2; 5; 6; 9]
  /\ dedupe 3 [0; 1; 2; 5; 6; 9] = ok [0; 5; 9]
  /\ forall x, In x [0; 1; 2; 5; 6; 9] ->
       In x [0; 5; 9] \/ exists a, In a [0; 5; 9] /\ a < x /\ x - a < 3.
Proof.
  assert (Hs : StronglySorted Z.lt [0; 1; 2; 5; 6; 9]).
  { repeat (constructor; [|repeat constructor; lia]). constructor. }
  split; [exact Hs|]. split; [reflexivity|].
  exact (proj2 (dedupe_drops_only_close_frames 3 [0; 1; 2; 5; 6; 9]
                  [0; 5; 9] Hs eq_refl)).
Defined.

Lemma greedy_from_fixpoint thr l : forall last,
  HdRel (gap thr) last l -> Sorted (gap thr) l ->
  greedy_from thr last l = l.
Proof.
  induction l as [|x l IH]; intros last Hd Hs; cbn [greedy_from];
    [reflexivity|].
  apply HdRel_inv in Hd. destruct Hd as [_ Hgap].
  apply Sorted_inv in Hs. destruct Hs as [Hs Hd'].
  replace (x >=? last + thr) with true by (symmetry; apply Z.geb_le; lia).
  f_equal. apply IH; assumption.
Qed.

(** X2. Deduplicating a deduplicated list changes nothing: for a strictly
    increasing bucket, [dedupe] applied to its own output returns it. *)
Theorem dedupe_idempotent (thr : Z) (bucket out : list Z) :
  StronglySorted Z.lt bucket ->
  dedupe thr bucket = ok out ->
  dedupe thr out = ok out.
Proof.
  intros Hsorted Hout. destruct bucket as [|first rest]; [discriminate|].
  rewrite dedupe_cons in Hout. injection Hout as <-.
  pose proof (greedy_dedupe_gaps thr _ Hsorted) as Hgaps.
  cbn [greedy_dedupe] in *. rewrite dedupe_cons. cbn [greedy_dedupe].
  apply Sorted_inv in Hgaps. destruct Hgaps as [Hs Hd].
  rewrite (greedy_from_fixpoint thr _ first Hd Hs). reflexivity.
Qed.

Lemma dedupe_idempotent_example :
  StronglySorted Z.lt [0; 1; 2; 5; 6; 9]
  /\ dedupe 3 [0; 1; 2; 5; 6; 9] = ok [0; 5; 9]
  /\ dedupe 3 [0; 5; 9] = ok [0; 5; 9].
Proof.
  assert (Hs : StronglySorted Z.lt [0; 1; 2; 5; 6; 9]).
  { repeat (constructor; [|repeat constructor; lia]). constructor. }
  split; [exact Hs|]. split; [reflexivity|].
  exact (dedupe_idempotent 3 [0; 1; 2; 5; 6; 9] [0; 5; 9] Hs eq_refl).
Defined.

Lemma gaps_span thr hi l : forall a,
  HdRel (gap thr) a l -> Sorted (gap thr) l ->
  a <= hi -> Forall (fun x => x <= hi) l ->
  Z.of_nat (length l) * thr <= hi - a.
Proof.
  induction l as [|x l IH]; intros a Hd Hs Ha Hl; cbn [length].
  - lia.
  - apply HdRel_inv in Hd. destruct Hd as [Hax Hgap].
    apply Sorted_inv in Hs. destruct Hs as [Hs Hd'].
    apply Forall_cons_iff in Hl. destruct Hl as [Hx Hl].
    specialize (IH x Hd' Hs Hx Hl). lia.
Qed.

(** X3. The kept indices are spread out: if a strictly increasing bucket lies
    within [lo .. hi], the [n] indices that deduplication keeps satisfy
    [(n - 1) * thr <= hi - lo]; for [thr > 0] that is at most
    [(hi - lo) / thr + 1] indices. *)
Theorem dedupe_count_bound (thr lo hi : Z) (bucket out : list Z) :
  StronglySorted Z.lt bucket ->
  Forall (fun x => lo <= x <= hi) bucket ->
  dedupe thr bucket = ok out ->
  (Z.of_nat (length out) - 1) * thr <= hi - lo
  /\ (0 < thr -> Z.of_nat (length out) <= (hi - lo) / thr + 1).
Proof.
  intros Hsorted Hrange Hout.
  assert (Hmain : (Z.of_nat (length out) - 1) * thr <= hi - lo).
  { destruct bucket as [|first rest]; [discriminate|].
    rewrite dedupe_cons in Hout. injection Hout as <-.
    pose proof (greedy_dedupe_gaps thr _ Hsorted) as Hgaps.
    cbn [greedy_dedupe] in *.
    apply Sorted_inv in Hgaps. destruct Hgaps as [Hs Hd].
    apply Forall_cons_iff in Hrange. destruct Hrange as [Hfirst Hrest].
    assert (Hhi : Forall (fun x => x <= hi) (greedy_from thr first rest)).
    { apply Forall_forall. intros x Hx. apply greedy_from_incl in Hx.
      rewrite Forall_forall in Hrest. apply Hrest in Hx. lia. }
    pose proof (gaps_span thr hi _ first Hd Hs (proj2 Hfirst) Hhi) as Hspan.
    cbn [length]. lia. }
  split; [exact Hmain|].
  intros Hthr.
  assert (Z.of_nat (length out) - 1 <= (hi - lo) / thr)
    by (apply Z.div_le_lower_bound; lia).
  lia.
Qed.

Lemma dedupe_count_bound_example :
  StronglySorted Z.lt [0; 1; 2; 5; 6; 9]
  /\ Forall (fun x => 0 <= x <= 9) [0; 1; 2; 5; 6; 9]
  /\ dedupe 3 [0; 1; 2; 5; 6; 9] = ok [0; 5; 9]
  /\ (Z.of_nat (length [0; 5; 9]) - 1) * 3 <= 9 - 0.
Proof.
  assert (Hs : StronglySorted Z.lt [0; 1; 2; 5; 6; 9]).
  { repeat (constructor; [|repeat constructor; lia]). constructor. }
  assert (Hr : Forall (fun x => 0 <= x <= 9) [0; 1; 2; 5; 6; 9])
    by (repeat constructor; lia).
  split; [exact Hs|]. split; [exact Hr|]. split; [reflexivity|].
  exact (proj1 (dedupe_count_bound 3 0 9 [0; 1; 2; 5; 6; 9] [0; 5; 9]
                  Hs Hr eq_refl)).
Defined.

(** ** Rounding never invents a NaN *)







(** ** Where the threshold computation fails *)

Lemma threshold_zero_denominator (clip : VideoNode) (diff_thr : Z) :
  fps_den clip = 0 -> threshold clip diff_thr = raise ZeroDivisionError.
Proof.
  intros H. unfold threshold, PyFloat.int_truediv. rewrite H. reflexivity.
Qed.

Lemma round_raises x e :
  PyFloat.round x = raise e -> e = OverflowError \/ e = ValueError.
Proof.
  destruct x as [s|s| |s m [|p|p]]; cbn; intros H;
    try discriminate; injection H as <-; auto.
Qed.

Lemma threshold_raises (clip : VideoNode) (diff_thr : Z) (e : exn) :
  threshold clip diff_thr = raise e ->
  (fps_den clip = 0 /\ e = ZeroDivisionError)
  \/ (fps_den clip <> 0 /\ (e = OverflowError \/ e = ValueError)).
Proof.
  unfold threshold, PyFloat.int_truediv.
  destruct (Z.eqb_spec (fps_den clip) 0) as [Hz | Hnz].
  - cbn. intros [= <-]. left. split; [exact Hz | reflexivity].
  - intros H. right. split; [exact Hnz|].
    assert (Hrest : forall fps,
      rbind (PyFloat.mul_int fps diff_thr) PyFloat.round = raise e ->
      e = OverflowError \/ e = ValueError).
    { intros fps. unfold PyFloat.mul_int, PyFloat.of_int.
      destruct (binary_normalize _ _ diff_thr 0 false); cbn;
        try (intros [= <-]; auto); apply round_raises. }
    destruct (fps_num clip =? 0); [exact (Hrest _ H)|].
    destruct (SFdiv _ _ _ _); cbn in H;
      try exact (Hrest _ H).
    injection H as <-. auto.
Qed.

(** ** What [lazylist] returns and raises *)

Section LazylistMore.

Context {R : PyRandom}.

Lemma value_triple {A} (r : result A) (g : rng_state) (t : list event) :
  value (r, g, t) = r.
Proof. reflexivity. Qed.

Lemma drawn_cases seed deduped frames out :
  drawn seed deduped frames = ok out ->
  (Z.of_nat (length deduped) <= frames /\ out = deduped)
  \/ (0 <= frames < Z.of_nat (length deduped)
      /\ exists js,
           out = map (fun j => nth j deduped 0) js
           /\ length js = Z.to_nat frames
           /\ NoDup js
           /\ Forall (fun j => (j < length deduped)%nat) js).
Proof.
  intros Hout.
  destruct (Z_lt_ge_dec frames 0) as [Hneg | Hpos].
  { rewrite drawn_negative in Hout by exact Hneg. discriminate. }
  destruct (Z_lt_ge_dec frames (Z.of_nat (length deduped))) as [Hlt | Hge].
  - right. split; [lia|].
    destruct (drawn_positions seed deduped frames) as (js & Hjs & Hrest); [lia|].
    exists js. rewrite Hjs in Hout. injection Hout as <-.
    split; [reflexivity | exact Hrest].
  - left. split; [lia|]. unfold drawn in Hout.
    replace (Z.of_nat (length deduped) >? frames) with false in Hout
      by (symmetry; rewrite Z.gtb_ltb; apply Z.ltb_ge; lia).
    injection Hout as <-. reflexivity.
Qed.

Lemma drawn_length seed deduped frames out :
  drawn seed deduped frames = ok out ->
  Z.of_nat (length out) = Z.min (Z.of_nat (length deduped)) frames.
Proof.
  intros Hout.
  destruct (drawn_cases _ _ _ _ Hout) as [[Hle ->] | [Hk (js & -> & Hlen & _)]].
  - lia.
  - rewrite length_map. lia.
Qed.

Lemma drawn_NoDup seed deduped frames out :
  NoDup deduped -> drawn seed deduped frames = ok out -> NoDup out.
Proof.
  intros Hnd Hout.
  destruct (drawn_cases _ _ _ _ Hout)
    as [[Hle ->] | [Hk (js & -> & _ & Hjs & Hb)]].
  - exact Hnd.
  - apply NoDup_map_nth; assumption.
Qed.

Lemma drawn_raises seed deduped frames e :
  drawn seed deduped frames = raise e -> e = ValueError.
Proof.
  intros H.
  destruct (Z_lt_ge_dec frames 0) as [Hneg | Hpos].
  { rewrite drawn_negative in H by exact Hneg. injection H as <-. reflexivity. }
  destruct (Z_lt_ge_dec frames (Z.of_nat (length deduped))) as [Hlt | Hge].
  - destruct (drawn_positions seed deduped frames) as (js & Hjs & _); [lia|].
    rewrite Hjs in H. discriminate.
  - unfold drawn in H.
    replace (Z.of_nat (length deduped) >? frames) with false in H
      by (symmetry; rewrite Z.gtb_ltb; apply Z.ltb_ge; lia).
    discriminate.
Qed.

Lemma increasing_NoDup l : StronglySorted Z.lt l -> NoDup l.
Proof.
  induction 1 as [|x l Hs IH Hx]; constructor; [|exact IH].
  intros Hin. rewrite Forall_forall in Hx. apply Hx in Hin. lia.
Qed.

Lemma greedy_dedupe_increasing thr bucket :
  StronglySorted Z.lt bucket -> StronglySorted Z.lt (greedy_dedupe thr bucket).
Proof.
  intros Hs. apply Sorted_StronglySorted; [exact Z.lt_trans|].
  apply Sorted_weaken with (P := gap thr); [|apply greedy_dedupe_gaps, Hs].
  intros a b [Hab _]. exact Hab.
Qed.

Lemma greedy_dedupe_nonempty thr bucket :
  bucket <> [] -> (1 <= Z.of_nat (length (greedy_dedupe thr bucket))).
Proof.
  destruct bucket as [|first rest]; [congruence|]. intros _.
  cbn [greedy_dedupe length]. lia.
Qed.

(** The two greedy lists of a clip for a threshold. *)
Lemma lazylist_ok_inv clip dark_frames light_frames seed diff_thr g out :
  value (lazylist clip dark_frames light_frames seed diff_thr g) = ok out ->
  exists thr d l,
    fst (classified clip) <> [] /\ snd (classified clip) <> []
    /\ threshold clip diff_thr = ok thr
    /\ drawn seed (greedy_dedupe thr (fst (classified clip))) dark_frames = ok d
    /\ drawn seed (greedy_dedupe thr (snd (classified clip))) light_frames = ok l
    /\ out = d ++ l.
Proof.
  rewrite lazylist_run. cbv zeta.
  destruct (sort_classified clip) as [-> ->].
  destruct (fst (classified clip)) as [|d0 dark'] eqn:Ed; [discriminate|].
  destruct (snd (classified clip)) as [|l0 light'] eqn:El; [discriminate|].
  destruct (threshold clip diff_thr) as [e | thr]; [discriminate|].
  unfold value at 1. cbn [fst]. rewrite sampling_value.
  destruct (drawn seed (greedy_dedupe thr (d0 :: dark')) dark_frames)
    as [e | d] eqn:Hd; [discriminate|].
  destruct (drawn seed (greedy_dedupe thr (l0 :: light')) light_frames)
    as [e | l] eqn:Hl; [discriminate|].
  cbn [rbind]. intros [= <-].
  exists thr, d, l.
  split; [discriminate|]. split; [discriminate|]. split; [reflexivity|].
  split; [exact Hd|]. split; [exact Hl | reflexivity].
Qed.

(** X4. A list that [lazylist] returns holds at most
    [dark_frames + light_frames] indices; returning at all means that neither
    count is negative, and each positive count contributes at least one
    index. *)
Theorem lazylist_size (clip : VideoNode)
        (dark_frames light_frames seed diff_thr : Z) (g : rng_state)
        (out : list Z) :
  value (lazylist clip dark_frames light_frames seed diff_thr g) = ok out ->
  0 <= dark_frames /\ 0 <= light_frames
  /\ Z.of_nat (length out) <= dark_frames + light_frames
  /\ Z.min 1 dark_frames + Z.min 1 light_frames <= Z.of_nat (length out).
Proof.
  intros Hout.
  destruct (lazylist_ok_inv _ _ _ _ _ _ _ Hout)
    as (thr & d & l & Hd0 & Hl0 & _ & Hd & Hl & ->).
  pose proof (drawn_length _ _ _ _ Hd) as Ld.
  pose proof (drawn_length _ _ _ _ Hl) as Ll.
  pose proof (greedy_dedupe_nonempty thr _ Hd0).
  pose proof (greedy_dedupe_nonempty thr _ Hl0).
  rewrite length_app, Nat2Z.inj_add. lia.
Qed.

(** X5. A list that [lazylist] returns names no frame twice. *)
Theorem lazylist_no_duplicates (clip : VideoNode)
        (dark_frames light_frames seed diff_thr : Z) (g : rng_state)
        (out : list Z) :
  value (lazylist clip dark_frames light_frames seed diff_thr g) = ok out ->
  NoDup out.
Proof.
  intros Hout.
  destruct (lazylist_ok_inv _ _ _ _ _ _ _ Hout)
    as (thr & d & l & _ & _ & _ & Hd & Hl & ->).
  destruct (classified_increasing clip) as [Sd Sl].
  apply NoDup_app.
  - apply (drawn_NoDup _ _ _ _
             (increasing_NoDup _ (greedy_dedupe_increasing thr _ Sd)) Hd).
  - apply (drawn_NoDup _ _ _ _
             (increasing_NoDup _ (greedy_dedupe_increasing thr _ Sl)) Hl).
  - intros x Hxd Hxl.
    apply (drawn_incl _ _ _ _ _ Hd), greedy_dedupe_incl in Hxd.
    apply (drawn_incl _ _ _ _ _ Hl), greedy_dedupe_incl in Hxl.
    exact (buckets_disjoint clip x (conj Hxd Hxl)).
Qed.

(** X6. [lazylist] raises [IndexError] exactly when the dark or the light
    list is empty, and [ZeroDivisionError] exactly when both lists are
    non-empty and [fps_den] is zero; it never fails at reading a frame. *)
Theorem lazylist_error_causes (clip : VideoNode)
        (dark_frames light_frames seed diff_thr : Z) (g : rng_state) :
  let v := value (lazylist clip dark_frames light_frames seed diff_thr g) in
  (v = raise IndexError <->
   fst (classified clip) = [] \/ snd (classified clip) = [])
  /\ (v = raise ZeroDivisionError <->
      fst (classified clip) <> [] /\ snd (classified clip) <> []
      /\ fps_den clip = 0)
  /\ v <> raise VSError.
Proof.
  cbv zeta. rewrite lazylist_run. cbv zeta.
  destruct (sort_classified clip) as [-> ->].
  destruct (fst (classified clip)) as [|d0 dark'].
  { unfold value; cbn [fst].
    split; [|split]; [split; auto | split; [discriminate | tauto] | discriminate]. }
  destruct (snd (classified clip)) as [|l0 light'].
  { unfold value; cbn [fst].
    split; [|split]; [split; auto | split; [discriminate | tauto] | discriminate]. }
  destruct (threshold clip diff_thr) as [e | thr] eqn:Ethr.
  - unfold value; cbn [fst].
    destruct (threshold_raises clip diff_thr e Ethr)
      as [[Hz ->] | [Hnz [-> | ->]]].
    + split; [|split]; [split; [discriminate | intros [|]; discriminate]
                       | split; [intros _; repeat split; try discriminate; exact Hz
                                | reflexivity]
                       | discriminate].
    + split; [|split]; [split; [discriminate | intros [|]; discriminate]
                       | split; [discriminate | intros (_ & _ & Hz); contradiction]
                       | discriminate].
    + split; [|split]; [split; [discriminate | intros [|]; discriminate]
                       | split; [discriminate | intros (_ & _ & Hz); contradiction]
                       | discriminate].
  - assert (Hden : fps_den clip <> 0).
    { intros Hz. rewrite (threshold_zero_denominator clip diff_thr Hz) in Ethr.
      discriminate. }
    rewrite !value_triple, sampling_value.
    assert (Hv : forall e,
      rbind (drawn seed (greedy_dedupe thr (d0 :: dark')) dark_frames) (fun d =>
      rbind (drawn seed (greedy_dedupe thr (l0 :: light')) light_frames) (fun l =>
      ok (d ++ l))) = raise e -> e = ValueError).
    { intros e.
      destruct (drawn seed (greedy_dedupe thr (d0 :: dark')) dark_frames)
        as [e1 | d] eqn:E1; cbn [rbind].
      - intros [= <-]. exact (drawn_raises _ _ _ _ E1).
      - destruct (drawn seed (greedy_dedupe thr (l0 :: light')) light_frames)
          as [e2 | l] eqn:E2; cbn [rbind]; [|discriminate].
        intros [= <-]. exact (drawn_raises _ _ _ _ E2). }
    split; [|split].
    + split; [intros H; apply Hv in H; discriminate | intros [|]; discriminate].
    + split; [intros H; apply Hv in H; discriminate
             | intros (_ & _ & Hz); contradiction].
    + intros H; apply Hv in H; discriminate.
Qed.

Lemma bind_same_start {A B} (m : M rng_state A) (k : A -> M rng_state B) g g' :
  m g' = m g -> bind m k g' = bind m k g.
Proof. intros H. unfold bind. rewrite H. reflexivity. Qed.

Lemma sampling_without_draw seed dd dk ld lk g :
  Z.of_nat (length dd) <= dk -> Z.of_nat (length ld) <= lk ->
  sampling seed dd dk ld lk g = (ok (dd ++ ld), g, []).
Proof.
  intros Hd Hl. unfold sampling, bind.
  rewrite (sample_bucket_keeps seed dd dk g Hd). cbn [ok].
  rewrite (sample_bucket_keeps seed ld lk g Hl). reflexivity.
Qed.

Lemma sampling_generator seed dd dk ld lk g :
  generator (sampling seed dd dk ld lk g) = g
  \/ forall g', sampling seed dd dk ld lk g' = sampling seed dd dk ld lk g.
Proof.
  destruct (Z_le_gt_dec (Z.of_nat (length dd)) dk) as [Hd | Hd].
  - destruct (Z_le_gt_dec (Z.of_nat (length ld)) lk) as [Hl | Hl].
    + left. rewrite sampling_without_draw by assumption. reflexivity.
    + right. intros g'. unfold sampling, bind.
      rewrite !(sample_bucket_keeps seed dd dk _ Hd). cbn [ok].
      rewrite !(sample_bucket_draws seed ld lk) by lia. reflexivity.
  - right. intros g'. unfold sampling. apply bind_same_start.
    rewrite !(sample_bucket_draws seed dd dk) by lia. reflexivity.
Qed.

(** X7. What [lazylist] does to the generator of [random]: either it leaves
    the state as it found it (nothing was sampled, or the run failed
    before), or it leaves a state that does not depend on the one it found,
    since the first draw starts from [random.seed(seed)]. *)
Theorem lazylist_generator_effect (clip : VideoNode)
        (dark_frames light_frames seed diff_thr : Z) (g : rng_state) :
  generator (lazylist clip dark_frames light_frames seed diff_thr g) = g
  \/ forall g',
       generator (lazylist clip dark_frames light_frames seed diff_thr g') =
       generator (lazylist clip dark_frames light_frames seed diff_thr g).
Proof.
  destruct (sort (fst (classified clip))) as [|d0 dark'] eqn:Ed.
  { left. rewrite lazylist_run. cbv zeta. rewrite Ed. reflexivity. }
  destruct (sort (snd (classified clip))) as [|l0 light'] eqn:El.
  { left. rewrite lazylist_run. cbv zeta. rewrite Ed, El. reflexivity. }
  destruct (threshold clip diff_thr) as [e | thr] eqn:Ethr.
  { left. rewrite lazylist_run. cbv zeta. rewrite Ed, El, Ethr. reflexivity. }
  destruct (sampling_generator seed (greedy_dedupe thr (d0 :: dark'))
              dark_frames (greedy_dedupe thr (l0 :: light')) light_frames g)
    as [Hsame | Hreset].
  - left. rewrite lazylist_run. cbv zeta. rewrite Ed, El, Ethr. exact Hsame.
  - right. intros g'. rewrite !lazylist_run. cbv zeta.
    rewrite Ed, El, Ethr. unfold generator at 1 3. cbn [fst snd].
    rewrite Hreset. reflexivity.
Qed.

(** X8. When both deduplicated lists fit their target counts, [lazylist]
    returns the deduplicated dark list followed by the deduplicated light
    list, leaves the generator of [random] untouched, and has requested every
    frame once, in order. *)
Theorem lazylist_without_sampling (clip : VideoNode)
        (dark_frames light_frames seed diff_thr : Z) (g : rng_state)
        (b : buckets) (thr : Z) (dark_dedupe light_dedupe : list Z) :
  value (clip_async_render clip g) = ok b ->
  threshold clip diff_thr = ok thr ->
  dedupe thr (sort (fst b)) = ok dark_dedupe ->
  dedupe thr (sort (snd b)) = ok light_dedupe ->
  Z.of_nat (length dark_dedupe) <= dark_frames ->
  Z.of_nat (length light_dedupe) <= light_frames ->
  lazylist clip dark_frames light_frames seed diff_thr g =
  (ok (dark_dedupe ++ light_dedupe), g,
   map GetFrame (range 0 (num_frames clip))).
Proof.
  rewrite clip_async_render_run, value_triple. intros [= <-] Hthr Hd Hl Ld Ll.
  rewrite lazylist_run. cbv zeta. rewrite Hthr.
  destruct (sort (fst (classified clip))) as [|d0 dark']; [discriminate|].
  destruct (sort (snd (classified clip))) as [|l0 light']; [discriminate|].
  rewrite dedupe_cons in Hd, Hl.
  assert (Hd' : greedy_dedupe thr (d0 :: dark') = dark_dedupe)
    by (unfold ok in Hd; congruence).
  assert (Hl' : greedy_dedupe thr (l0 :: light') = light_dedupe)
    by (unfold ok in Hl; congruence).
  cbn [ok]. rewrite Hd', Hl'.
  rewrite sampling_without_draw by assumption.
  unfold value, generator, trace. cbn [fst snd]. rewrite app_nil_r.
  reflexivity.
Qed.

End LazylistMore.

Lemma lazylist_size_example :
  value (lazylist (R := RotatingRandom) five_frames 2 1 20202020 1 5)
    = ok [4; 0; 2]
  /\ Z.of_nat (length [4; 0; 2]) <= 2 + 1.
Proof.
  assert (H : value (lazylist (R := RotatingRandom) five_frames 2 1 20202020 1 5)
              = ok [4; 0; 2]) by (vm_compute; reflexivity).
  split; [exact H|].
  exact (proj1 (proj2 (proj2 (lazylist_size (R := RotatingRandom)
                  five_frames 2 1 20202020 1 5 [4; 0; 2] H)))).
Defined.

Lemma lazylist_no_duplicates_example :
  value (lazylist (R := RotatingRandom) five_frames 2 1 20202020 1 5)
    = ok [4; 0; 2]
  /\ NoDup [4; 0; 2].
Proof.
  assert (H : value (lazylist (R := RotatingRandom) five_frames 2 1 20202020 1 5)
              = ok [4; 0; 2]) by (vm_compute; reflexivity).
  split; [exact H|].
  exact (lazylist_no_duplicates (R := RotatingRandom)
           five_frames 2 1 20202020 1 5 [4; 0; 2] H).
Defined.

Lemma lazylist_without_sampling_example :
  lazylist (R := RotatingRandom) five_frames Defaults.dark_frames
    Defaults.light_frames Defaults.seed 2 41 =
  (ok ([0; 4] ++ [2]), 41,
   map GetFrame (range 0 (num_frames five_frames))).
Proof.
  apply (lazylist_without_sampling (R := RotatingRandom) five_frames
           Defaults.dark_frames Defaults.light_frames Defaults.seed 2 41
           ([0; 1; 4], [2; 3]) 2 [0; 4] [2]);
    vm_compute; first [reflexivity | discriminate].
Defined.



(** ** Restarting the scanner, and the order of rendering *)

Lemma scan_outcome {S} (stats : VideoNode) (g : S) (a : Z) :
  0 <= a <= num_frames stats ->
  (exists i, first_exceeding stats a i
             /\ reported (trace (desync stats a g)) = [i])
  \/ ((forall j, a <= j < num_frames stats -> ~ exceeds stats j)
      /\ reported (trace (desync stats a g)) = []).
Proof.
  intros Ha.
  destruct (scan_from stats g (Z.to_nat (num_frames stats - a)) a eq_refl Ha)
    as (t & Hrun & Ht).
  unfold desync. rewrite Hrun. unfold trace. cbn [snd].
  destruct Ht as [(i & Hi & Hrep & _) | (Hnone & Hrep & _)].
  - left. exists i. split; assumption.
  - right. split; assumption.
Qed.

(** X10. Frames already checked can be skipped: when no frame in
    [start, later) exceeds the threshold, scanning from [later] reports the
    same as scanning from [start]. *)
Theorem desync_skips_checked_frames {S} (stats : VideoNode)
        (start later : Z) (g : S) :
  0 <= start <= later -> later <= num_frames stats ->
  (forall j, start <= j < later -> ~ exceeds stats j) ->
  reported (trace (desync stats later g)) =
  reported (trace (desync stats start g)).
Proof.
  intros Hstart Hlater Hquiet.
  destruct (scan_outcome stats g start ltac:(lia))
    as [(i & (Hi & Ei & Mi) & Hrep) | (Hnone & Hrep)];
  destruct (scan_outcome stats g later ltac:(lia))
    as [(i' & (Hi' & Ei' & Mi') & Hrep') | (Hnone' & Hrep')];
  rewrite Hrep, Hrep'.
  - f_equal.
    assert (later <= i).
    { destruct (Z_lt_ge_dec i later) as [Hlt | Hge]; [|lia].
      exfalso. apply (Hquiet i); [lia | exact Ei]. }
    destruct (Z.lt_trichotomy i i') as [H1 | [H1 | H1]]; [|symmetry; exact H1|].
    + exfalso. apply (Mi' i); [lia | exact Ei].
    + exfalso. apply (Mi i'); [lia | exact Ei'].
  - exfalso.
    assert (later <= i).
    { destruct (Z_lt_ge_dec i later) as [Hlt | Hge]; [|lia].
      exfalso. apply (Hquiet i); [lia | exact Ei]. }
    apply (Hnone' i); [lia | exact Ei].
  - exfalso. apply (Hnone i'); [lia | exact Ei'].
  - reflexivity.
Qed.

Lemma desync_skips_checked_frames_example :
  reported (trace (desync four_diffs 2 tt)) =
  reported (trace (desync four_diffs 0 tt)).
Proof.
  apply (desync_skips_checked_frames (S := unit) four_diffs 0 2 tt).
  - split; discriminate.
  - vm_compute. discriminate.
  - intros j Hj (d & [_ Hd] & Hgt).
    assert (Hcases : j = 0 \/ j = 1) by lia.
    destruct Hcases as [-> | ->]; vm_compute in Hd;
      injection Hd as <-; vm_compute in Hgt; discriminate.
Defined.

(** X11. Rendering may evaluate the frames in any order: for every order
    that visits each frame once, [checkclip] does not fail, exactly those
    frames are requested, and sorting the two lists gives the lists that
    in-order rendering builds. *)
Theorem render_order_irrelevant {S} (clip : VideoNode) (g : S)
        (order : list Z) :
  Permutation order (range 0 (num_frames clip)) ->
  exists b,
    render clip order ([], []) g = (ok b, g, map GetFrame order)
    /\ value (clip_async_render clip g) = ok (sort (fst b), sort (snd b)).
Proof.
  intros Hp. destruct (render_any_order clip g order Hp) as (b & Hrun & Hd & Hl).
  exists b. split; [exact Hrun|].
  rewrite clip_async_render_run, Hd, Hl. unfold value. cbn [fst].
  destruct (classified clip). reflexivity.
Qed.

Lemma render_order_irrelevant_example :
  exists b,
    render five_frames [4; 3; 2; 1; 0] ([], []) tt =
      (ok b, tt, map GetFrame [4; 3; 2; 1; 0])
    /\ value (clip_async_render five_frames tt) = ok (sort (fst b), sort (snd b)).
Proof.
  apply (render_order_irrelevant (S := unit) five_frames tt [4; 3; 2; 1; 0]).
  change (range 0 (num_frames five_frames)) with (rev [4; 3; 2; 1; 0]).
  apply Permutation_rev.
Defined.

(* ================================================================== *)
(** * [peak], [betterround] and [scale] *)

(** X12. [peak] of a non-negative bit depth is the value with exactly the
    low [bits_per_sample] bits set, that is [2 ^ bits_per_sample - 1]; a
    negative bit depth raises [ValueError]. *)
Theorem peak_all_ones (bits_per_sample : Z) :
  (bits_per_sample < 0 -> peak bits_per_sample = raise ValueError)
  /\ (0 <= bits_per_sample ->
      exists p,
        peak bits_per_sample = ok p
        /\ p = 2 ^ bits_per_sample - 1
        /\ forall i, Z.testbit p i = (0 <=? i) && (i <? bits_per_sample)).
Proof.
  unfold peak. split; intros H.
  - replace (bits_per_sample <? 0) with true
      by (symmetry; apply Z.ltb_lt; exact H).
    reflexivity.
  - replace (bits_per_sample <? 0) with false
      by (symmetry; apply Z.ltb_ge; exact H).
    eexists. split; [reflexivity|].
    rewrite Z.shiftl_1_l. split; [reflexivity|].
    intros i.
    replace (2 ^ bits_per_sample - 1) with (Z.ones bits_per_sample)
      by (rewrite Z.ones_equiv; lia).
    apply Z.testbit_ones. exact H.
Qed.

Lemma peak_all_ones_example :
  peak 10 = ok 1023 /\ Z.testbit 1023 9 = true /\ Z.testbit 1023 10 = false.
Proof.
  destruct (proj2 (peak_all_ones 10) ltac:(discriminate)) as (p & Hp & -> & Hbits).
  split; [exact Hp|]. split; [exact (Hbits 9) | exact (Hbits 10)].
Defined.

Lemma float_div_int_zero x : float_div_int x 0 = raise ZeroDivisionError.
Proof. reflexivity. Qed.

(** X13. Whatever [betterround] returns is a multiple of [base]; a [base] of
    zero raises [ZeroDivisionError], and apart from that only
    [OverflowError] and [ValueError] can be raised. *)
Theorem betterround_multiple_of_base (input : PyFloat.float) (base : Z) :
  (forall r, betterround input base = ok r -> (base | r) /\ base <> 0)
  /\ (base = 0 -> betterround input base = raise ZeroDivisionError)
  /\ (forall e, betterround input base = raise e ->
        e = ZeroDivisionError \/ e = OverflowError \/ e = ValueError).
Proof.
  split; [|split].
  - intros r. unfold betterround.
    destruct (float_div_int input base) as [e | q] eqn:Eq; [discriminate|].
    cbn [rbind]. destruct (PyFloat.round q) as [e | n]; [discriminate|].
    cbn [rbind]. intros [= <-]. split; [exists n; lia|].
    intros ->. rewrite float_div_int_zero in Eq. discriminate.
  - intros ->. reflexivity.
  - intros e. unfold betterround, float_div_int, PyFloat.of_int.
    destruct (binary_normalize _ _ base 0 false) as [s|s| |s m x]; cbn;
      try (intros [= <-]; auto);
      intros H;
      match type of H with
      | rbind (PyFloat.round ?q) _ = _ =>
          destruct (PyFloat.round q) as [e' | n] eqn:Er; cbn in H;
            [injection H as <-; destruct (round_raises _ _ Er); auto
            | discriminate]
      end.
Qed.

Lemma betterround_multiple_of_base_example :
  PyFloat.of_int 1081 = ok (S754_finite false 4754288278503424 (-42))
  /\ betterround (S754_finite false 4754288278503424 (-42)) 16 = ok 1088
  /\ (16 | 1088).
Proof.
  assert (H : betterround (S754_finite false 4754288278503424 (-42)) 16
              = ok 1088) by (vm_compute; reflexivity).
  split; [reflexivity|]. split; [exact H|].
  exact (proj1 (proj1 (betterround_multiple_of_base
                         (S754_finite false 4754288278503424 (-42)) 16)
                      1088 H)).
Defined.

Lemma peak_ok_nonneg bits :
  (bits < 0 -> peak bits = raise ValueError)
  /\ (0 <= bits -> exists p, peak bits = ok p /\ 0 <= p).
Proof.
  unfold peak. split; intros H.
  - replace (bits <? 0) with true by (symmetry; apply Z.ltb_lt; exact H).
    reflexivity.
  - replace (bits <? 0) with false by (symmetry; apply Z.ltb_ge; exact H).
    eexists. split; [reflexivity|].
    rewrite Z.shiftl_1_l.
    assert (0 < 2 ^ bits) by (apply Z.pow_pos_nonneg; lia). lia.
Qed.

(** All 8-bit values at all bit depths up to 16, by evaluation. *)
Lemma scale_8bit_table_holds :
  forallb (fun bits => forallb (scale_8bit_checked bits) (range 0 256))
          (range 0 17) = true.
Proof. vm_compute. reflexivity. Qed.

(** X14. At every bit depth from 0 to 16, [scale] maps each 8-bit value [v]
    (given as the float of [v]) to the integer nearest to [v * peak / 255]:
    the result lies in [0 .. peak], 0 goes to 0 and 255 goes to [peak]. *)
Theorem scale_8bit_nearest (bits v : Z) :
  0 <= bits <= 16 -> 0 <= v <= 255 ->
  exists p x r,
    peak bits = ok p
    /\ PyFloat.of_int v = ok x
    /\ scale x p = ok r
    /\ 2 * Z.abs (255 * r - v * p) < 255
    /\ 0 <= r <= p
    /\ (v = 0 -> r = 0)
    /\ (v = 255 -> r = p).
Proof.
  intros Hbits Hv.
  pose proof scale_8bit_table_holds as T.
  rewrite forallb_forall in T.
  specialize (T bits (proj2 (in_range 0 17 bits) ltac:(lia))).
  rewrite forallb_forall in T.
  specialize (T v (proj2 (in_range 0 256 v) ltac:(lia))).
  unfold scale_8bit_checked, scale_8bit in T.
  destruct (proj2 (peak_ok_nonneg bits) ltac:(lia)) as (p & Hp & Hp0).
  rewrite Hp in T. cbv beta iota delta [ok rbind] in T.
  destruct (PyFloat.of_int v) as [e | x] eqn:Hx; [discriminate|].
  destruct (scale x p) as [e | r] eqn:Hr; [discriminate|].
  unfold nearest_to_scaled in T. apply Z.ltb_lt in T.
  exists p, x, r.
  split; [exact Hp|]. split; [reflexivity|]. split; [exact Hr|].
  split; [exact T|].
  split; [nia|]. split; intros ->; nia.
Qed.

Lemma scale_8bit_nearest_example :
  exists p x r,
    peak 10 = ok p /\ PyFloat.of_int 16 = ok x /\ scale x p = ok r
    /\ 2 * Z.abs (255 * r - 16 * p) < 255
    /\ 0 <= r <= p /\ (16 = 0 -> r = 0) /\ (16 = 255 -> r = p).
Proof.
  apply (scale_8bit_nearest 10 16); split; discriminate.
Defined.

(** ** Dividing a float by 1 *)

Lemma div_eucl_exact a b : 0 < b -> Z.div_eucl (a * b) b = (a, 0).
Proof.
  intros Hb. pose proof (Z.div_eucl_eq (a * b) b ltac:(lia)) as H.
  pose proof (Z.mod_pos_bound (a * b) b Hb) as Hm.
  unfold Z.modulo in Hm. destruct (Z.div_eucl (a * b) b) as [q r].
  assert (r = 0 /\ q = a) as [-> ->]; [|reflexivity].
  assert (b * (a - q) = r) by lia.
  assert (a - q = 0) by nia. split; nia.
Qed.

Lemma digits2_pos_double m :
  Z.pos (digits2_pos m~0) = Z.pos (digits2_pos m) + 1.
Proof. cbn [digits2_pos]. lia. Qed.

(** The float 1.0, which is what [float(1)] gives. *)
Lemma of_int_one :
  PyFloat.of_int 1 = ok (S754_finite false 4503599627370496 (-52)).
Proof. reflexivity. Qed.

Lemma SFdiv_by_one s m e :
  bounded PyFloat.prec PyFloat.emax m e = true ->
  SFdiv PyFloat.prec PyFloat.emax (S754_finite s m e)
        (S754_finite false 4503599627370496 (-52)) = S754_finite s m e.
Proof.
  unfold PyFloat.prec, PyFloat.emax, bounded, canonical_mantissa.
  intros H. apply andb_true_iff in H.
  destruct H as [Hc He]. apply Z.eqb_eq in Hc. apply Z.leb_le in He.
  unfold fexp, emin in Hc.
  unfold SFdiv, SFdiv_core_binary.
  change (Zdigits2 (Z.pos m)) with (Z.pos (digits2_pos m)).
  change (Zdigits2 4503599627370496) with 53.
  set (d := Z.pos (digits2_pos m)) in *.
  assert (Hd : 0 < d) by (subst d; lia).
  destruct (Z_lt_ge_dec (d + e - 1 - 53) (3 - 1024 - 53)) as [Hsub | Hnorm].
  - replace (Z.min (fexp 53 1024 (d + e - (53 + -52))) (e - -52)) with e
      by (unfold fexp, emin; lia).
    replace (e - -52 - e) with 52 by lia.
    cbv iota beta. rewrite Z.shiftl_mul_pow2 by lia.
    change (2 ^ 52) with 4503599627370496.
    rewrite div_eucl_exact by lia.
    change (new_location 4503599627370496 0) with loc_Exact.
    unfold binary_round_aux, shr_fexp.
    change (Zdigits2 (Z.pos m)) with d.
    replace (fexp 53 1024 (d + e) - e) with 0 by (unfold fexp, emin; lia).
    cbn [shr shr_record_of_loc shr_m loc_of_shr_record round_nearest_even].
    change (Zdigits2 (Z.pos m)) with d.
    replace (fexp 53 1024 (d + e) - e) with 0 by (unfold fexp, emin; lia).
    cbn [shr shr_record_of_loc shr_m].
    replace (e <=? 1024 - 53) with true by (symmetry; apply Z.leb_le; lia).
    rewrite xorb_false_r. reflexivity.
  - replace (Z.min (fexp 53 1024 (d + e - (53 + -52))) (e - -52)) with (e - 1)
      by (unfold fexp, emin; lia).
    replace (e - -52 - (e - 1)) with 53 by lia.
    cbv iota beta. rewrite Z.shiftl_mul_pow2 by lia.
    change (2 ^ 53) with (2 * 4503599627370496). rewrite Z.mul_assoc.
    rewrite (Z.mul_comm (Z.pos m) 2). change (2 * Z.pos m) with (Z.pos m~0).
    rewrite div_eucl_exact by lia.
    change (new_location 4503599627370496 0) with loc_Exact.
    unfold binary_round_aux, shr_fexp.
    change (Zdigits2 (Z.pos m~0)) with (Z.pos (digits2_pos m~0)).
    rewrite digits2_pos_double. fold d.
    replace (fexp 53 1024 (d + 1 + (e - 1)) - (e - 1)) with 1
      by (unfold fexp, emin; lia).
    cbn [shr shr_record_of_loc iter_pos shr_1 shr_m shr_r shr_s orb
         loc_of_shr_record round_nearest_even].
    change (Zdigits2 (Z.pos m)) with d.
    replace (fexp 53 1024 (d + (e - 1 + 1)) - (e - 1 + 1)) with 0
      by (unfold fexp, emin; lia).
    cbn [shr shr_record_of_loc shr_m].
    replace (e - 1 + 1 <=? 1024 - 53) with true
      by (symmetry; apply Z.leb_le; lia).
    rewrite xorb_false_r. f_equal. lia.
Qed.

Lemma returns_its_round (r : result Z) :
  rbind r (fun n => ok (1 * n)) = r.
Proof.
  destruct r as [e | n]; [reflexivity|]. cbn [rbind].
  rewrite Z.mul_1_l. reflexivity.
Qed.

(** X15. With the default base 1, [betterround] is [round]: on every
    binary64 value, NaN and the infinities included, it returns what
    [round] returns or raises what [round] raises. *)
Theorem betterround_default_is_round (input : PyFloat.float) :
  valid_binary PyFloat.prec PyFloat.emax input = true ->
  betterround input 1 = PyFloat.round input.
Proof.
  intros Hvalid. unfold betterround, float_div_int.
  rewrite of_int_one. cbn [rbind ok].
  destruct input as [s|s| |s m e].
  - cbn [SFdiv]. apply returns_its_round.
  - cbn [SFdiv]. apply returns_its_round.
  - cbn [SFdiv]. apply returns_its_round.
  - rewrite (SFdiv_by_one s m e Hvalid). apply returns_its_round.
Qed.

Lemma betterround_default_is_round_example :
  betterround (S754_finite false 5629499534213120 (-51)) 1 = ok 2
  /\ PyFloat.round (S754_finite false 5629499534213120 (-51)) = ok 2.
Proof.
  assert (H : PyFloat.round (S754_finite false 5629499534213120 (-51)) = ok 2)
    by (vm_compute; reflexivity).
  split; [|exact H].
  rewrite (betterround_default_is_round
             (S754_finite false 5629499534213120 (-51)) eq_refl).
  exact H.
Defined.

(* ================================================================== *)
(** * [get_episode_number] *)

Section EpisodeFacts.

Variable isalnum : N -> bool.

Lemma digit_is_word c :
  Episode.is_digit c = true -> Episode.is_word isalnum c = true.
Proof. intros H. unfold Episode.is_word. rewrite H. reflexivity. Qed.

Lemma leading_digits_are_digits n : forall rest,
  forallb Episode.is_digit (Episode.leading_digits n rest) = true.
Proof.
  induction n as [|n IH]; intros [|c rest]; cbn; try reflexivity.
  destruct (Episode.is_digit c) eqn:E; [|reflexivity].
  cbn. rewrite E, IH. reflexivity.
Qed.

Lemma leading_digits_short n : forall rest,
  (length (Episode.leading_digits n rest) <= n)%nat.
Proof.
  induction n as [|n IH]; intros [|c rest]; cbn; try lia.
  destruct (Episode.is_digit c); cbn; [|lia].
  specialize (IH rest). lia.
Qed.

Lemma leading_digits_prefix n : forall rest,
  firstn (length (Episode.leading_digits n rest)) rest
  = Episode.leading_digits n rest.
Proof.
  induction n as [|n IH]; intros [|c rest]; cbn; try reflexivity.
  destruct (Episode.is_digit c); cbn; [|reflexivity].
  rewrite IH. reflexivity.
Qed.

Lemma leading_digits_all n d : forall tail,
  forallb Episode.is_digit d = true ->
  (length d <= n)%nat ->
  (forall q, hd_error tail = Some q -> Episode.is_digit q = false) ->
  Episode.leading_digits n (d ++ tail) = d.
Proof.
  revert n. induction d as [|x d IH]; intros n tail Hd Hlen Htail.
  - cbn [app]. destruct n as [|n]; [destruct tail; reflexivity|].
    destruct tail as [|q tail]; [reflexivity|].
    cbn. rewrite (Htail q eq_refl). reflexivity.
  - cbn in Hd. apply andb_true_iff in Hd. destruct Hd as [Hx Hd].
    destruct n as [|n]; [cbn in Hlen; lia|].
    cbn. rewrite Hx. f_equal. apply IH; [exact Hd | cbn in Hlen; lia | exact Htail].
Qed.

Lemma closing_found prev rest c :
  Episode.is_digit prev = true ->
  Episode.closing isalnum prev rest = Some c ->
  (c = [] \/ c = [95%N] \/ c = [118%N])
  /\ firstn (length c) rest = c
  /\ (forall q, hd_error rest = Some q -> Episode.is_digit q = false).
Proof.
  intros Hprev. unfold Episode.closing, Episode.orelse, Episode.boundary.
  cbn [Episode.is_word_opt]. rewrite (digit_is_word prev Hprev).
  destruct rest as [|x rest]; cbn [hd_error Episode.is_word_opt Episode.literal xorb].
  - intros [= <-]. split; [auto|]. split; [reflexivity | discriminate].
  - destruct (Episode.is_word isalnum x) eqn:Ew; cbn [negb xorb].
    + destruct (N.eqb_spec x 95) as [-> | H95].
      * intros [= <-]. split; [auto|]. split; [reflexivity|].
        intros q [= <-]. reflexivity.
      * destruct (N.eqb_spec x 118) as [-> | H118]; [|discriminate].
        intros [= <-]. split; [auto|]. split; [reflexivity|].
        intros q [= <-]. reflexivity.
    + intros [= <-]. split; [auto|]. split; [reflexivity|].
      intros q [= <-].
      destruct (Episode.is_digit x) eqn:Eq; [|reflexivity].
      rewrite (digit_is_word x Eq) in Ew. discriminate.
Qed.

Lemma digits_then_closing_found k : forall rest m,
  (k <= length rest)%nat ->
  forallb Episode.is_digit (firstn k rest) = true ->
  Episode.digits_then_closing isalnum k rest = Some m ->
  exists j c,
    (1 <= j <= k)%nat
    /\ m = firstn j rest ++ c
    /\ (c = [] \/ c = [95%N] \/ c = [118%N])
    /\ firstn (length c) (skipn j rest) = c
    /\ (forall q, hd_error (skipn j rest) = Some q ->
                  Episode.is_digit q = false).
Proof.
  induction k as [|k IH]; intros rest m Hlen Hdig; [discriminate|].
  cbn [Episode.digits_then_closing]. unfold Episode.orelse.
  destruct (Episode.closing isalnum (nth k rest 0%N) (skipn (S k) rest))
    as [c|] eqn:Ec; cbn [option_map].
  - intros [= <-]. exists (S k), c.
    assert (Hlast : Episode.is_digit (nth k rest 0%N) = true).
    { rewrite forallb_forall in Hdig. apply Hdig.
      rewrite <- (firstn_skipn (S k) rest) at 1.
      rewrite app_nth1 by (rewrite length_firstn; lia).
      apply nth_In. rewrite length_firstn. lia. }
    destruct (closing_found _ _ _ Hlast Ec) as (Hc & Hpre & Hnext).
    split; [lia|]. split; [reflexivity|]. repeat split; assumption.
  - intros H.
    assert (Hdig' : forallb Episode.is_digit (firstn k rest) = true).
    { rewrite forallb_forall in *. intros x Hx. apply Hdig.
      rewrite <- (firstn_skipn k (firstn (S k) rest)).
      rewrite firstn_firstn, Nat.min_l by lia.
      apply in_or_app. left. exact Hx. }
    destruct (IH rest m ltac:(lia) Hdig' H) as (j & c & Hj & Hrest).
    exists j, c. split; [lia | exact Hrest].
Qed.

Lemma digits_and_closing_found rest m :
  Episode.digits_and_closing isalnum rest = Some m ->
  exists d c tail, Episode.matched_as rest m [] d c tail.
Proof.
  unfold Episode.digits_and_closing. intros H.
  pose proof (leading_digits_short 3 rest) as Hshort.
  pose proof (leading_digits_prefix 3 rest) as Hpre.
  pose proof (leading_digits_are_digits 3 rest) as Hdig.
  set (k := length (Episode.leading_digits 3 rest)) in *.
  assert (Hk : (k <= length rest)%nat).
  { subst k. rewrite <- Hpre at 1. rewrite length_firstn. lia. }
  rewrite <- Hpre in Hdig.
  destruct (digits_then_closing_found k rest m Hk Hdig H)
    as (j & c & Hj & -> & Hc & Hcpre & Hnext).
  exists (firstn j rest), c, (skipn (length c) (skipn j rest)).
  unfold Episode.matched_as. cbn [app].
  assert (Hsplit : skipn j rest = c ++ skipn (length c) (skipn j rest)).
  { rewrite <- Hcpre at 1. symmetry. apply firstn_skipn. }
  split; [reflexivity|].
  split; [rewrite <- Hsplit; symmetry; apply firstn_skipn|].
  split; [auto|]. split; [exact Hc|].
  split.
  { rewrite forallb_forall in *. intros x Hx. apply Hdig.
    rewrite <- (firstn_skipn j (firstn k rest)).
    rewrite firstn_firstn, Nat.min_l by lia.
    apply in_or_app. left. exact Hx. }
  split; [rewrite length_firstn; lia|].
  rewrite <- Hsplit. exact Hnext.
Qed.


Lemma literal_found c rest e :
  Episode.literal c rest = Some e ->
  e = [c] /\ rest = c :: skipn 1 rest.
Proof.
  destruct rest as [|x rest]; cbn; [discriminate|].
  destruct (N.eqb_spec x c) as [-> | H]; [|discriminate].
  intros [= <-]. split; reflexivity.
Qed.

Lemma matched_after_opening c rest m' d cl tail :
  rest = c :: skipn 1 rest ->
  (c = 69%N \/ c = 95%N) ->
  Episode.matched_as (skipn 1 rest) m' [] d cl tail ->
  Episode.matched_as rest ([c] ++ m') [c] d cl tail.
Proof.
  intros Hrest Hc (Hm & Hr & _ & Hcl & Hd & Hlen & Hnext).
  unfold Episode.matched_as. cbn [app] in *.
  split; [rewrite Hm; reflexivity|].
  split; [rewrite Hrest, Hr at 1; reflexivity|].
  split; [destruct Hc as [-> | ->]; auto|].
  repeat split; try assumption; lia.
Qed.

(** A match at a position, with the character before the digits. *)
Lemma match_here_found prev rest m :
  Episode.match_here isalnum prev rest = Some m ->
  exists g d c tail,
    Episode.matched_as rest m g d c tail
    /\ forall p, Episode.last_of prev g = Some p -> Episode.is_digit p = false.
Proof.
  unfold Episode.match_here, Episode.orelse.
  destruct (Episode.boundary isalnum prev rest) eqn:Eb.
  - destruct (Episode.digits_and_closing isalnum rest) as [m0|] eqn:E0.
    + intros [= <-].
      destruct (digits_and_closing_found rest m0 E0) as (d & c & tail & Hm).
      exists [], d, c, tail. split; [exact Hm|].
      cbn [Episode.last_of]. intros p ->.
      destruct Hm as (_ & Hr & _ & _ & Hd & Hlen & _). cbn [app] in Hr.
      destruct d as [|x d]; [cbn in Hlen; lia|].
      cbn in Hd. apply andb_true_iff in Hd. destruct Hd as [Hx _].
      subst rest. unfold Episode.boundary in Eb.
      cbn [app hd_error Episode.is_word_opt] in Eb.
      rewrite (digit_is_word x Hx) in Eb.
      destruct (Episode.is_word isalnum p) eqn:Ep; [discriminate|].
      destruct (Episode.is_digit p) eqn:Edp; [|reflexivity].
      rewrite (digit_is_word p Edp) in Ep. discriminate.
    + destruct (Episode.literal 69 rest) as [e|] eqn:Ee.
      * destruct (literal_found _ _ _ Ee) as [-> Hrest].
        destruct (Episode.digits_and_closing isalnum (skipn 1 rest))
          as [m1|] eqn:E1; cbn [option_map].
        -- intros [= <-].
           destruct (digits_and_closing_found _ m1 E1) as (d & c & tail & Hm).
           exists [69%N], d, c, tail.
           split; [apply matched_after_opening; auto|].
           cbn. intros p [= <-]. reflexivity.
        -- destruct (Episode.literal 95 rest) as [u|] eqn:Eu; [|discriminate].
           destruct (literal_found _ _ _ Eu) as [-> Hrest'].
           rewrite Hrest' in Hrest. discriminate.
      * destruct (Episode.literal 95 rest) as [u|] eqn:Eu; [|discriminate].
        destruct (literal_found _ _ _ Eu) as [-> Hrest].
        destruct (Episode.digits_and_closing isalnum (skipn 1 rest))
          as [m1|] eqn:E1; cbn [option_map]; [|discriminate].
        intros [= <-].
        destruct (digits_and_closing_found _ m1 E1) as (d & c & tail & Hm).
        exists [95%N], d, c, tail.
        split; [apply matched_after_opening; auto|].
        cbn. intros p [= <-]. reflexivity.
  - destruct (Episode.literal 69 rest) as [e|] eqn:Ee.
    + destruct (literal_found _ _ _ Ee) as [-> Hrest].
      destruct (Episode.digits_and_closing isalnum (skipn 1 rest))
        as [m1|] eqn:E1; cbn [option_map].
      * intros [= <-].
        destruct (digits_and_closing_found _ m1 E1) as (d & c & tail & Hm).
        exists [69%N], d, c, tail.
        split; [apply matched_after_opening; auto|].
        cbn. intros p [= <-]. reflexivity.
      * destruct (Episode.literal 95 rest) as [u|] eqn:Eu; [|discriminate].
        destruct (literal_found _ _ _ Eu) as [-> Hrest'].
        rewrite Hrest' in Hrest. discriminate.
    + destruct (Episode.literal 95 rest) as [u|] eqn:Eu; [|discriminate].
      destruct (literal_found _ _ _ Eu) as [-> Hrest].
      destruct (Episode.digits_and_closing isalnum (skipn 1 rest))
        as [m1|] eqn:E1; cbn [option_map]; [|discriminate].
      intros [= <-].
      destruct (digits_and_closing_found _ m1 E1) as (d & c & tail & Hm).
      exists [95%N], d, c, tail.
      split; [apply matched_after_opening; auto|].
      cbn. intros p [= <-]. reflexivity.
Qed.

Lemma last_of_app prev a b :
  Episode.last_of prev (a ++ b) = Episode.last_of (Episode.last_of prev a) b.
Proof.
  revert prev. induction a as [|x a IH]; intros prev; cbn; [reflexivity|].
  apply IH.
Qed.

(** What [re.search] finds, and where. *)
Lemma search_from_found rest : forall prev m,
  Episode.search_from isalnum prev rest = Some m ->
  exists pre g d c tail,
    rest = pre ++ g ++ d ++ c ++ tail
    /\ Episode.matched_as (g ++ d ++ c ++ tail) m g d c tail
    /\ forall p, Episode.last_of prev (pre ++ g) = Some p ->
                 Episode.is_digit p = false.
Proof.
  induction rest as [|x rest IH]; intros prev m; cbn [Episode.search_from];
    unfold Episode.orelse.
  - destruct (Episode.match_here isalnum prev []) as [m0|] eqn:E0; [|discriminate].
    intros [= <-].
    destruct (match_here_found _ _ _ E0) as (g & d & c & tail & Hm & Hp).
    exists [], g, d, c, tail. cbn [app].
    pose proof Hm as (_ & Hr & _). rewrite <- Hr.
    split; [reflexivity|]. split; assumption.
  - destruct (Episode.match_here isalnum prev (x :: rest)) as [m0|] eqn:E0.
    + intros [= <-].
      destruct (match_here_found _ _ _ E0) as (g & d & c & tail & Hm & Hp).
      exists [], g, d, c, tail. cbn [app].
      pose proof Hm as (_ & Hr & _). rewrite <- Hr.
      split; [reflexivity|]. split; assumption.
    + intros H.
      destruct (IH (Some x) m H) as (pre & g & d & c & tail & Hr & Hm & Hp).
      exists (x :: pre), g, d, c, tail. cbn [app].
      split; [rewrite Hr; reflexivity|]. split; [exact Hm|].
      exact Hp.
Qed.

Lemma search_digits_of_match rest m g d c tail :
  Episode.matched_as rest m g d c tail ->
  Episode.search_digits m = Some d.
Proof.
  intros (-> & _ & Hg & Hc & Hd & Hlen & _).
  assert (Hlead : Episode.leading_digits 3 (d ++ c) = d).
  { apply leading_digits_all; [exact Hd | lia|].
    destruct Hc as [-> | [-> | ->]]; cbn; intros q [= <-] || discriminate;
      reflexivity. }
  destruct d as [|x d]; [cbn in Hlen; lia|].
  assert (Hx : Episode.is_digit x = true)
    by (cbn in Hd; apply andb_true_iff in Hd; tauto).
  destruct Hg as [-> | [-> | ->]]; cbn [app Episode.search_digits];
    try (replace (Episode.is_digit 69) with false by reflexivity);
    try (replace (Episode.is_digit 95) with false by reflexivity);
    cbn [Episode.search_digits]; rewrite Hx; f_equal; exact Hlead.
Qed.

Lemma digits_value_from (l : Episode.str) : forall acc,
  forallb Episode.is_digit l = true -> 0 <= acc ->
  acc * 10 ^ Z.of_nat (length l)
  <= fold_left (fun a c => 10 * a + (Z.of_N c - 48)) l acc
  < (acc + 1) * 10 ^ Z.of_nat (length l).
Proof.
  induction l as [|c l IH]; intros acc Hl Hacc.
  - cbn. lia.
  - cbn in Hl. apply andb_true_iff in Hl. destruct Hl as [Hc Hl].
    unfold Episode.is_digit in Hc. apply andb_true_iff in Hc.
    destruct Hc as [H1 H2]. apply N.leb_le in H1. apply N.leb_le in H2.
    cbn [fold_left length]. rewrite Nat2Z.inj_succ, Z.pow_succ_r by lia.
    specialize (IH (10 * acc + (Z.of_N c - 48)) Hl ltac:(lia)).
    assert (0 < 10 ^ Z.of_nat (length l)) by (apply Z.pow_pos_nonneg; lia).
    nia.
Qed.

Lemma digits_value_bound (d : Episode.str) :
  forallb Episode.is_digit d = true -> (length d <= 3)%nat ->
  0 <= Episode.digits_value d <= 999.
Proof.
  intros Hd Hlen. unfold Episode.digits_value.
  pose proof (digits_value_from d 0 Hd ltac:(lia)) as H.
  assert (10 ^ Z.of_nat (length d) <= 10 ^ 3)
    by (apply Z.pow_le_mono_r; lia).
  change (10 ^ 3) with 1000 in *. lia.
Qed.

Lemma digits_value_zeros k (d : Episode.str) :
  Episode.digits_value (repeat 48%N k ++ d) = Episode.digits_value d.
Proof.
  unfold Episode.digits_value. rewrite fold_left_app. f_equal.
  induction k as [|k IH]; cbn; [reflexivity | exact IH].
Qed.

Lemma zfill_digits (d : Episode.str) (width : Z) :
  forallb Episode.is_digit d = true ->
  Episode.zfill d width =
  repeat 48%N (Z.to_nat (width - Z.of_nat (length d))) ++ d.
Proof.
  intros Hd. unfold Episode.zfill. destruct d as [|x d].
  - rewrite app_nil_r. reflexivity.
  - cbn in Hd. apply andb_true_iff in Hd. destruct Hd as [Hx _].
    unfold Episode.is_digit in Hx. apply andb_true_iff in Hx.
    destruct Hx as [H1 H2]. apply N.leb_le in H1.
    replace ((x =? 43) || (x =? 45))%N with false; [reflexivity|].
    symmetry. apply orb_false_iff. split; apply N.eqb_neq; lia.
Qed.

Lemma int_of_digits (d : Episode.str) :
  d <> [] -> forallb Episode.is_digit d = true ->
  Episode.int_of d = Some (Episode.digits_value d).
Proof.
  intros Hne Hd. unfold Episode.int_of. destruct d; [congruence|].
  rewrite Hd. reflexivity.
Qed.

Lemma last_of_snoc prev (b0 : Episode.str) p :
  Episode.last_of prev (b0 ++ [p]) = Some p.
Proof. rewrite last_of_app. reflexivity. Qed.

(** X16. What [get_episode_number] returns is a run of one to three decimal
    digits of the file name, with no digit right before or after it in the
    name, padded on the left with zeros to the width [zfill]; read as a
    number the result is the number of that run, which is at most 999 and,
    when [final] is given, at most [final]. *)
Theorem get_episode_number_returns (infile : Episode.str) (zfill : Z)
        (final : option Z) (out : Episode.str) :
  Episode.get_episode_number isalnum (Some infile) zfill final = inr out ->
  exists before d after,
    infile = before ++ d ++ after
    /\ (1 <= length d <= 3)%nat
    /\ forallb Episode.is_digit d = true
    /\ (forall b0 p, before = b0 ++ [p] -> Episode.is_digit p = false)
    /\ (forall q a0, after = q :: a0 -> Episode.is_digit q = false)
    /\ out = repeat 48%N (Z.to_nat (zfill - Z.of_nat (length d))) ++ d
    /\ Episode.int_of out = Some (Episode.digits_value d)
    /\ 0 <= Episode.digits_value d <= 999
    /\ (forall f, final = Some f -> Episode.digits_value d <= f).
Proof.
  unfold Episode.get_episode_number, Episode.search_episode.
  destruct (Episode.search_from isalnum None infile) as [partial|] eqn:Es;
    [|discriminate].
  destruct (search_from_found infile None partial Es)
    as (pre & g & d & c & tail & Hin & Hm & Hbefore).
  rewrite (search_digits_of_match _ _ _ _ _ _ Hm).
  pose proof Hm as (_ & _ & _ & _ & Hd & Hlen & Hafter).
  assert (Hne : d <> []) by (destruct d; [cbn in Hlen; lia | discriminate]).
  rewrite (int_of_digits d Hne Hd), (zfill_digits d zfill Hd).
  intros Hout.
  assert (Hout' : out = repeat 48%N (Z.to_nat (zfill - Z.of_nat (length d))) ++ d
                  /\ forall f, final = Some f -> Episode.digits_value d <= f).
  { destruct final as [f|].
    - destruct (Episode.digits_value d <=? f) eqn:E; [|discriminate].
      injection Hout as <-. split; [reflexivity|].
      intros f' [= <-]. apply Z.leb_le. exact E.
    - injection Hout as <-. split; [reflexivity | discriminate]. }
  destruct Hout' as [-> Hfinal].
  exists (pre ++ g), d, (c ++ tail).
  split; [rewrite Hin, <- !app_assoc; reflexivity|].
  split; [exact Hlen|]. split; [exact Hd|].
  split.
  { intros b0 p Hb. apply Hbefore. rewrite Hb. apply last_of_snoc. }
  split.
  { intros q a0 Ha. apply Hafter. rewrite Ha. reflexivity. }
  split; [reflexivity|].
  split.
  { rewrite int_of_digits.
    - rewrite digits_value_zeros. reflexivity.
    - destruct d; [congruence|]. destruct (repeat _ _); discriminate.
    - rewrite forallb_app, Hd, andb_true_r.
      apply forallb_forall. intros x Hx. apply repeat_spec in Hx. subst x.
      reflexivity. }
  split; [apply digits_value_bound; [exact Hd | lia]|].
  exact Hfinal.
Qed.

Lemma digits_and_closing_needs_digit rest :
  (forall q, hd_error rest = Some q -> Episode.is_digit q = false) ->
  Episode.digits_and_closing isalnum rest = None.
Proof.
  intros H. unfold Episode.digits_and_closing.
  replace (Episode.leading_digits 3 rest) with (@nil N); [reflexivity|].
  destruct rest as [|q rest]; [reflexivity|].
  cbn. rewrite (H q eq_refl). reflexivity.
Qed.

Lemma match_here_needs_digit prev rest :
  forallb (fun c => negb (Episode.is_digit c)) rest = true ->
  Episode.match_here isalnum prev rest = None.
Proof.
  intros H.
  assert (H0 : forall q, hd_error rest = Some q -> Episode.is_digit q = false).
  { destruct rest as [|x rest]; [discriminate|]. cbn in H.
    apply andb_true_iff in H. destruct H as [Hx _].
    intros q [= <-]. apply negb_true_iff. exact Hx. }
  assert (H1 : forall q, hd_error (skipn 1 rest) = Some q ->
                         Episode.is_digit q = false).
  { destruct rest as [|x [|y rest]]; try discriminate. cbn in H.
    apply andb_true_iff in H. destruct H as [_ H].
    apply andb_true_iff in H. destruct H as [Hy _].
    intros q [= <-]. apply negb_true_iff. exact Hy. }
  unfold Episode.match_here, Episode.orelse.
  rewrite (digits_and_closing_needs_digit rest H0).
  rewrite (digits_and_closing_needs_digit (skipn 1 rest) H1).
  destruct (Episode.boundary isalnum prev rest),
           (Episode.literal 69 rest), (Episode.literal 95 rest); reflexivity.
Qed.

Lemma search_from_needs_digit rest : forall prev,
  forallb (fun c => negb (Episode.is_digit c)) rest = true ->
  Episode.search_from isalnum prev rest = None.
Proof.
  induction rest as [|x rest IH]; intros prev H; cbn [Episode.search_from].
  - rewrite (match_here_needs_digit prev [] H). reflexivity.
  - rewrite (match_here_needs_digit prev (x :: rest) H). cbn [Episode.orelse].
    apply IH. cbn in H. apply andb_true_iff in H. tauto.
Qed.

(** X17. How [get_episode_number] fails: without a file name it raises
    [TypeError]; on a name without a decimal digit the search finds nothing
    and [.group] raises [AttributeError]; any other failure is
    [AttributeError] again or, only when [final] is given,
    [EpisodeNotFound]. *)
Theorem get_episode_number_raises (zfill : Z) (final : option Z) :
  Episode.get_episode_number isalnum None zfill final = inl Episode.TypeError
  /\ (forall infile,
        forallb (fun c => negb (Episode.is_digit c)) infile = true ->
        Episode.get_episode_number isalnum (Some infile) zfill final
        = inl Episode.AttributeError)
  /\ (forall infile e,
        Episode.get_episode_number isalnum (Some infile) zfill final = inl e ->
        e = Episode.AttributeError
        \/ (e = Episode.EpisodeNotFound /\ exists f, final = Some f)).
Proof.
  split; [reflexivity|]. split.
  - intros infile H. unfold Episode.get_episode_number, Episode.search_episode.
    rewrite (search_from_needs_digit infile None H). reflexivity.
  - intros infile e.
    unfold Episode.get_episode_number, Episode.search_episode.
    destruct (Episode.search_from isalnum None infile) as [partial|] eqn:Es;
      [|intros [= <-]; auto].
    destruct (search_from_found infile None partial Es)
      as (pre & g & d & c & tail & Hin & Hm & _).
    rewrite (search_digits_of_match _ _ _ _ _ _ Hm).
    pose proof Hm as (_ & _ & _ & _ & Hd & Hlen & _).
    assert (Hne : d <> []) by (destruct d; [cbn in Hlen; lia | discriminate]).
    rewrite (int_of_digits d Hne Hd).
    destruct final as [f|]; [|discriminate].
    destruct (Episode.digits_value d <=? f); [discriminate|].
    intros [= <-]. right. split; [reflexivity|]. exists f. reflexivity.
Qed.

Lemma skipn_all_app {A} (d after : list A) : skipn (length d) (d ++ after) = after.
Proof. induction d as [|x d IH]; [reflexivity | exact IH]. Qed.

Lemma firstn_all_app {A} (d after : list A) : firstn (length d) (d ++ after) = d.
Proof. induction d as [|x d IH]; cbn; [reflexivity | f_equal; exact IH]. Qed.

Lemma digits_and_closing_standalone d after :
  forallb Episode.is_digit d = true -> (1 <= length d <= 3)%nat ->
  (forall q a0, after = q :: a0 -> Episode.is_word isalnum q = false) ->
  Episode.digits_and_closing isalnum (d ++ after) = Some d.
Proof.
  intros Hd Hlen Hafter. unfold Episode.digits_and_closing.
  rewrite leading_digits_all; [|exact Hd | lia|].
  2:{ intros q Hq. destruct after as [|q' a0]; [discriminate|].
      injection Hq as ->. specialize (Hafter q a0 eq_refl).
      destruct (Episode.is_digit q) eqn:E; [|reflexivity].
      rewrite (digit_is_word q E) in Hafter. discriminate. }
  destruct (length d) as [|k] eqn:Ek; [lia|].
  cbn [Episode.digits_then_closing].
  rewrite <- Ek, skipn_all_app, firstn_all_app.
  assert (Hlast : Episode.is_digit (nth k (d ++ after) 0%N) = true).
  { rewrite app_nth1 by lia. rewrite forallb_forall in Hd. apply Hd.
    apply nth_In. lia. }
  unfold Episode.closing, Episode.boundary. cbn [Episode.is_word_opt].
  rewrite (digit_is_word _ Hlast).
  replace (Episode.is_word_opt isalnum (hd_error after)) with false.
  - cbn. rewrite app_nil_r. reflexivity.
  - destruct after as [|q a0]; [reflexivity|]. cbn.
    symmetry. exact (Hafter q a0 eq_refl).
Qed.

Lemma search_from_standalone d after : forall before prev,
  forallb (fun c => negb (Episode.is_digit c)) before = true ->
  (forall b0 p, before = b0 ++ [p] -> Episode.is_word isalnum p = false) ->
  (before = [] -> Episode.is_word_opt isalnum prev = false) ->
  forallb Episode.is_digit d = true -> (1 <= length d <= 3)%nat ->
  (forall q a0, after = q :: a0 -> Episode.is_word isalnum q = false) ->
  Episode.search_from isalnum prev (before ++ d ++ after) = Some d.
Proof.
  induction before as [|x before IH]; intros prev Hnd Hlast Hprev Hd Hlen Hafter.
  - cbn [app].
    assert (Hhere : Episode.match_here isalnum prev (d ++ after) = Some d).
    { unfold Episode.match_here.
      rewrite (digits_and_closing_standalone d after Hd Hlen Hafter).
      replace (Episode.boundary isalnum prev (d ++ after)) with true;
        [reflexivity|].
      unfold Episode.boundary. rewrite (Hprev eq_refl).
      destruct d as [|y d]; [cbn in Hlen; lia|]. cbn.
      cbn in Hd. apply andb_true_iff in Hd. destruct Hd as [Hy _].
      rewrite (digit_is_word y Hy). reflexivity. }
    destruct (d ++ after); cbn [Episode.search_from]; rewrite Hhere; reflexivity.
  - cbn [app Episode.search_from].
    cbn in Hnd. apply andb_true_iff in Hnd. destruct Hnd as [Hx Hnd].
    apply negb_true_iff in Hx.
    assert (Hhere : Episode.match_here isalnum prev
                      (x :: before ++ d ++ after) = None).
    { unfold Episode.match_here, Episode.orelse.
      rewrite (digits_and_closing_needs_digit (x :: before ++ d ++ after))
        by (intros q [= <-]; exact Hx).
      assert (Hopen : forall c, Episode.is_word isalnum c = true ->
        match Episode.literal c (x :: before ++ d ++ after) with
        | Some e => option_map (app e)
                      (Episode.digits_and_closing isalnum
                         (skipn 1 (x :: before ++ d ++ after)))
        | None => None
        end = None).
      { intros c Hc. cbn [Episode.literal skipn].
        destruct (N.eqb_spec x c) as [-> | Hne]; [|reflexivity].
        destruct before as [|y before].
        - rewrite (Hlast [] c eq_refl) in Hc. discriminate.
        - rewrite digits_and_closing_needs_digit; [reflexivity|].
          cbn. intros q [= <-]. cbn in Hnd.
          apply andb_true_iff in Hnd. destruct Hnd as [Hy _].
          apply negb_true_iff. exact Hy. }
      rewrite (Hopen 69%N eq_refl), (Hopen 95%N eq_refl).
      destruct (Episode.boundary isalnum prev _); reflexivity. }
    rewrite Hhere. cbn [Episode.orelse].
    apply IH; try assumption.
    + intros b0 p Hb. apply (Hlast (x :: b0) p). rewrite Hb. reflexivity.
    + intros ->. cbn. exact (Hlast [] x eq_refl).
Qed.

(** X18. A number that stands alone is found: when the file name is
    [before ++ d ++ after] with no digit in [before], [d] one to three
    digits, and the characters next to [d] (if any) not word characters,
    [get_episode_number] returns [d] padded with zeros to the width [zfill],
    or raises [EpisodeNotFound] when [final] is given and the number of [d]
    is larger. *)
Theorem get_episode_number_finds_standalone (before d after : Episode.str)
        (zfill : Z) (final : option Z) :
  forallb (fun c => negb (Episode.is_digit c)) before = true ->
  (forall b0 p, before = b0 ++ [p] -> Episode.is_word isalnum p = false) ->
  forallb Episode.is_digit d = true -> (1 <= length d <= 3)%nat ->
  (forall q a0, after = q :: a0 -> Episode.is_word isalnum q = false) ->
  Episode.get_episode_number isalnum (Some (before ++ d ++ after)) zfill final
  = match final with
    | Some f =>
        if Episode.digits_value d <=? f
        then inr (repeat 48%N (Z.to_nat (zfill - Z.of_nat (length d))) ++ d)
        else inl Episode.EpisodeNotFound
    | None => inr (repeat 48%N (Z.to_nat (zfill - Z.of_nat (length d))) ++ d)
    end.
Proof.
  intros Hnd Hlast Hd Hlen Hafter.
  unfold Episode.get_episode_number, Episode.search_episode.
  rewrite (search_from_standalone d after before None Hnd Hlast
             (fun _ => eq_refl) Hd Hlen Hafter).
  assert (Hm : Episode.matched_as (d ++ []) (d ++ []) [] d [] []).
  { unfold Episode.matched_as. cbn [app].
    repeat split; auto; try lia. discriminate. }
  rewrite app_nil_r in Hm.
  rewrite (search_digits_of_match _ _ _ _ _ _ Hm).
  assert (Hne : d <> []) by (destruct d; [cbn in Hlen; lia | discriminate]).
  rewrite (int_of_digits d Hne Hd), (zfill_digits d zfill Hd).
  reflexivity.
Qed.

End EpisodeFacts.

Lemma get_episode_number_returns_example :
  Episode.get_episode_number Episode.ascii_only
    (Some EpisodeExamples.release) 2 None = inr EpisodeExamples.release_digits
  /\ exists before d after,
       EpisodeExamples.release = before ++ d ++ after
       /\ (1 <= length d <= 3)%nat
       /\ EpisodeExamples.release_digits =
          repeat 48%N (Z.to_nat (2 - Z.of_nat (length d))) ++ d
       /\ 0 <= Episode.digits_value d <= 999.
Proof.
  assert (H : Episode.get_episode_number Episode.ascii_only
                (Some EpisodeExamples.release) 2 None
              = inr EpisodeExamples.release_digits) by (vm_compute; reflexivity).
  split; [exact H|].
  destruct (get_episode_number_returns Episode.ascii_only
              EpisodeExamples.release 2 None EpisodeExamples.release_digits H)
    as (before & d & after & H1 & H2 & _ & _ & _ & H6 & _ & H8 & _).
  exists before, d, after. repeat split; try assumption; lia.
Defined.

Lemma get_episode_number_finds_standalone_example :
  Episode.get_episode_number Episode.ascii_only
    (Some (EpisodeExamples.release_before ++ EpisodeExamples.release_digits
           ++ EpisodeExamples.release_after)) 4 (Some 12)
  = inr (repeat 48%N 2 ++ EpisodeExamples.release_digits).
Proof.
  apply (get_episode_number_finds_standalone Episode.ascii_only
           EpisodeExamples.release_before EpisodeExamples.release_digits
           EpisodeExamples.release_after 4 (Some 12)).
  - vm_compute. reflexivity.
  - intros b0 p Hb.
    assert (Hp : Episode.last_of None EpisodeExamples.release_before = Some p)
      by (rewrite Hb; apply last_of_snoc).
    vm_compute in Hp. injection Hp as <-. vm_compute. reflexivity.
  - vm_compute. reflexivity.
  - cbn. lia.
  - intros q a0 Ha. vm_compute in Ha. injection Ha as <- _.
    vm_compute. reflexivity.
Defined.

(* ================================================================== *)
(** * The shape of the list [lazylist] returns *)

(** X19. A list that [lazylist] returns is some dark frames followed by some
    light frames: it splits into a part of at most [dark_frames] indices, all
    of them from the dark list, and a part of at most [light_frames] indices,
    all of them from the light list. *)
Theorem lazylist_dark_then_light {R : PyRandom} (clip : VideoNode)
        (dark_frames light_frames seed diff_thr : Z) (g : rng_state)
        (b : buckets) (out : list Z) :
  value (clip_async_render clip g) = ok b ->
  value (lazylist clip dark_frames light_frames seed diff_thr g) = ok out ->
  exists d l,
    out = d ++ l
    /\ incl d (fst b) /\ Z.of_nat (length d) <= dark_frames
    /\ incl l (snd b) /\ Z.of_nat (length l) <= light_frames.
Proof.
  rewrite clip_async_render_run, value_triple. intros [= <-] Hout.
  destruct (lazylist_ok_inv _ _ _ _ _ _ _ Hout)
    as (thr & d & l & _ & _ & _ & Hd & Hl & ->).
  exists d, l. split; [reflexivity|].
  pose proof (drawn_length _ _ _ _ Hd) as Ld.
  pose proof (drawn_length _ _ _ _ Hl) as Ll.
  split; [|split; [lia|split; [|lia]]].
  - intros x Hx. apply (drawn_incl _ _ _ _ _ Hd), greedy_dedupe_incl in Hx.
    exact Hx.
  - intros x Hx. apply (drawn_incl _ _ _ _ _ Hl), greedy_dedupe_incl in Hx.
    exact Hx.
Qed.

Lemma lazylist_dark_then_light_example :
  exists d l,
    [4; 0; 2] = d ++ l
    /\ incl d [0; 1; 4] /\ Z.of_nat (length d) <= 2
    /\ incl l [2; 3] /\ Z.of_nat (length l) <= 1.
Proof.
  apply (lazylist_dark_then_light (R := RotatingRandom) five_frames
           2 1 20202020 1 5 ([0; 1; 4], [2; 3]) [4; 0; 2]);
    vm_compute; reflexivity.
Defined.
